(** * MAX72: the MAX7219/MAX7221 LED driver class of MAX72.cpp / MAX72.h

    The class keeps an 8-byte display cache and pushes every change to the
    chip with two-byte SPI transfers framed by the chip-select pin.  The
    embedding below follows the C++ text method by method:

    - [uint8_t] values are integers in [Z]; the places where C++ converts an
      [int] expression back to [uint8_t] are written [u8 _];
    - the object is a record with the three private members, plus the
      chronological list of everything the object did on the pins and on the
      SPI bus ([wire]);
    - a method is a computation in a small state-and-error monad: it either
      finishes in a new object state, or indexes [_displayCache] outside its
      eight entries, or shifts an [int] by at least its width (both undefined
      in C++), or exhausts the fuel of a loop. *)

From Stdlib Require Import ZArith Bool List Lia.
From stdpp Require Import base numbers list.
Import ListNotations.

Local Open Scope Z_scope.

(** ** Machine integers *)

(** Conversion of an [int] to [uint8_t]. *)
Definition u8 (x : Z) : Z := x mod 256.

Definition is_u8 (x : Z) : Prop := 0 <= x < 256.

(** The value of a [bits]-wide two's complement [int] holding [x] modulo
    [2^bits]. *)
Definition sint (bits x : Z) : Z :=
  (x + 2 ^ (bits - 1)) mod 2 ^ bits - 2 ^ (bits - 1).

(** ** Symbolic constants of MAX72.cpp and MAX72.h *)

Definition HIGH : Z := 1.
Definition LOW : Z := 0.
Definition ON : Z := 1.
Definition OFF : Z := 0.
Definition OUTPUT : Z := 1.
Definition INPUT : Z := 0.

Definition CLOCK_DIVIDER : Z := 2.

Definition DIGITREGISTER (x : Z) : Z := x + 1.

Definition DECODEMODE : Z := 0x9.
Definition INTENSITY : Z := 0xA.
Definition SCANLIMIT : Z := 0xB.
Definition SHUTDOWN : Z := 0xC.
Definition DISPLAYTEST : Z := 0xF.

(** Number of entries of [uint8_t _displayCache[8]]. *)
Definition CACHE_SIZE : Z := 8.

(** ** What the object does to the outside world *)

Inductive bit_order := LSBFIRST | MSBFIRST.
Inductive data_mode := SPI_MODE0 | SPI_MODE1 | SPI_MODE2 | SPI_MODE3.

Inductive bus_event :=
| pinMode (pin mode : Z)
| digitalWrite (pin level : Z)
| SPI_begin
| SPI_setClockDivider (divider : Z)
| SPI_setBitOrder (order : bit_order)
| SPI_setDataMode (mode : data_mode)
| SPI_transfer (byte : Z).

(** ** The object *)

Record MAX72 := mkMAX72 {
  _chipSelect : Z;
  _numDigits : Z;
  _displayCache : list Z;
  wire : list bus_event
}.

(** ** The monad of methods *)

Inductive outcome (A : Type) :=
| Done (a : A) (s : MAX72)
| Undefined
| OutOfFuel.
Arguments Done {A} a s.
Arguments Undefined {A}.
Arguments OutOfFuel {A}.

Definition M (A : Type) : Type := MAX72 -> outcome A.

Definition ret {A} (a : A) : M A := fun s => Done a s.

Definition bind {A B} (m : M A) (k : A -> M B) : M B :=
  fun s =>
    match m s with
    | Done a s' => k a s'
    | Undefined => Undefined
    | OutOfFuel => OutOfFuel
    end.

Notation "x <- m ;; k" := (bind m (fun x => k))
  (at level 100, m at next level, right associativity).
Notation "m ;; k" := (bind m (fun _ => k))
  (at level 100, right associativity).

Definition undefined {A} : M A := fun _ => Undefined.

Definition get_chipSelect : M Z := fun s => Done (_chipSelect s) s.
Definition get_numDigits : M Z := fun s => Done (_numDigits s) s.

(** One action on a pin or on the SPI bus. *)
Definition emit (e : bus_event) : M unit :=
  fun s => Done tt (mkMAX72 (_chipSelect s) (_numDigits s) (_displayCache s)
                            (wire s ++ [e])).

(** [_displayCache[i]] as an rvalue; outside the array the behaviour is
    undefined. *)
Definition cache_get (i : Z) : M Z :=
  fun s =>
    if (0 <=? i) && (i <? CACHE_SIZE) then
      match _displayCache s !! Z.to_nat i with
      | Some v => Done v s
      | None => Undefined
      end
    else Undefined.

(** [_displayCache[i] = v]; outside the array the behaviour is undefined. *)
Definition cache_set (i v : Z) : M unit :=
  fun s =>
    if (0 <=? i) && (i <? CACHE_SIZE) then
      match _displayCache s !! Z.to_nat i with
      | Some _ =>
          Done tt (mkMAX72 (_chipSelect s) (_numDigits s)
                           (<[Z.to_nat i := v]> (_displayCache s)) (wire s))
      | None => Undefined
      end
    else Undefined.

(** A [for] statement: [cond] is tested before every round, [incr] runs
    after the body. *)
Fixpoint for_loop {A} (fuel : nat) (cond : A -> M bool) (incr : A -> A)
    (body : A -> M unit) (a : A) : M unit :=
  match fuel with
  | O => fun _ => OutOfFuel
  | S fuel' =>
      b <- cond a ;;
      if b : bool then body a ;; for_loop fuel' cond incr body (incr a)
      else ret tt
  end.

(** A [uint8_t] counter takes at most 256 values: 256 rounds and the test
    that ends the loop. *)
Definition FUEL : nat := 257.

(** ** The methods of MAX72.cpp *)

Definition writeRegister (chipRegister chipValue : Z) : M unit :=
  cs <- get_chipSelect ;;
  emit (digitalWrite cs LOW) ;;
  emit (SPI_transfer chipRegister) ;;
  emit (SPI_transfer chipValue) ;;
  cs' <- get_chipSelect ;;
  emit (digitalWrite cs' HIGH).

(** [i < _numDigits] *)
Definition below_numDigits (i : Z) : M bool :=
  n <- get_numDigits ;; ret (i <? n).

Definition dispClear : M unit :=
  for_loop FUEL below_numDigits (fun i => u8 (i + 1))
    (fun i =>
       cache_set i 0x0 ;;
       v <- cache_get i ;;
       writeRegister (u8 (DIGITREGISTER i)) v)
    0.

Definition dispAll : M unit :=
  for_loop FUEL below_numDigits (fun i => u8 (i + 1))
    (fun i =>
       cache_set i 0xff ;;
       v <- cache_get i ;;
       writeRegister (u8 (DIGITREGISTER i)) v)
    0.

Definition dispRefresh : M unit :=
  for_loop FUEL below_numDigits (fun i => u8 (i + 1))
    (fun i =>
       v <- cache_get i ;;
       writeRegister (u8 (DIGITREGISTER i)) v)
    0.

Definition setIntensity (intensity : Z) : M unit :=
  if intensity <=? 0xf then writeRegister INTENSITY intensity
  else ret tt.

(** [0 <= digit < _numDigits] as C++ reads it: [(0 <= digit) < _numDigits],
    the truth value of the first comparison compared with [_numDigits]. *)
Definition digit_guard (digit : Z) : M bool :=
  n <- get_numDigits ;; ret (Z.b2z (0 <=? digit) <? n).

Definition setDigit (digit segments : Z) : M unit :=
  g <- digit_guard digit ;;
  if g : bool then
    cache_set digit segments ;;
    v <- cache_get digit ;;
    writeRegister (u8 (DIGITREGISTER digit)) v
  else ret tt.

Definition setMatrix (digits segments : Z) : M unit :=
  for_loop FUEL (fun ic => below_numDigits (fst ic))
    (fun ic => (u8 (fst ic + 1), u8 (Z.shiftl (snd ic) 1)))
    (fun ic =>
       let i := fst ic in
       let colmask := snd ic in
       if negb (Z.land colmask digits =? 0) then
         cache_set i segments ;;
         v <- cache_get i ;;
         writeRegister (u8 (DIGITREGISTER i)) v
       else
         cache_set i 0x0 ;;
         v <- cache_get i ;;
         writeRegister (u8 (DIGITREGISTER i)) v)
    (0, 1).

Definition setRows (segments : Z) : M unit :=
  for_loop FUEL below_numDigits (fun i => u8 (i + 1))
    (fun i =>
       cache_set i segments ;;
       v <- cache_get i ;;
       writeRegister (u8 (DIGITREGISTER i)) v)
    0.

(** [colmask] is declared before the loop and shifted at the end of the
    body; it is carried here next to [i]. *)
Definition setColumns (digits : Z) : M unit :=
  for_loop FUEL (fun ic => below_numDigits (fst ic))
    (fun ic => (u8 (fst ic + 1), u8 (Z.shiftl (snd ic) 1)))
    (fun ic =>
       let i := fst ic in
       let colmask := snd ic in
       if negb (Z.land colmask digits =? 0) then
         cache_set i 0xff ;;
         v <- cache_get i ;;
         writeRegister (u8 (DIGITREGISTER i)) v
       else
         cache_set i 0x0 ;;
         v <- cache_get i ;;
         writeRegister (u8 (DIGITREGISTER i)) v)
    (0, 1).

Section Platform.

(** Width of [int] on the target: 16 on the AVR boards, 32 on the ARM
    ones.  Arduino.h, which fixes it, is not part of the sources. *)
Variable int_bits : Z.

(** [a << n] on [int]: undefined when [n] is not below the width. *)
Definition shl_int (a n : Z) : M Z :=
  if (0 <=? n) && (n <? int_bits) then ret (sint int_bits (Z.shiftl a n))
  else undefined.

Definition setPixel (digit segment : Z) (state : bool) : M unit :=
  g <- digit_guard digit ;;
  if negb g then ret tt
  else if state then
    bit <- shl_int HIGH segment ;;
    c <- cache_get digit ;;
    cache_set digit (u8 (Z.lor c bit)) ;;
    v <- cache_get digit ;;
    writeRegister (u8 (DIGITREGISTER digit)) v
  else
    bit <- shl_int HIGH segment ;;
    c <- cache_get digit ;;
    cache_set digit (u8 (Z.land c (Z.lnot bit))) ;;
    v <- cache_get digit ;;
    writeRegister (u8 (DIGITREGISTER digit)) v.

(** The public methods, as values, and a program that calls them one after
    the other. *)
Inductive call :=
| call_dispClear
| call_dispAll
| call_dispRefresh
| call_setIntensity (intensity : Z)
| call_setDigit (digit segments : Z)
| call_setMatrix (digits segments : Z)
| call_setColumns (digits : Z)
| call_setRows (segments : Z)
| call_setPixel (digit segment : Z) (state : bool).

Definition perform (c : call) : M unit :=
  match c with
  | call_dispClear => dispClear
  | call_dispAll => dispAll
  | call_dispRefresh => dispRefresh
  | call_setIntensity v => setIntensity v
  | call_setDigit d v => setDigit d v
  | call_setMatrix d v => setMatrix d v
  | call_setColumns d => setColumns d
  | call_setRows v => setRows v
  | call_setPixel d g b => setPixel d g b
  end.

Fixpoint perform_all (cs : list call) : M unit :=
  match cs with
  | [] => ret tt
  | c :: cs' => perform c ;; perform_all cs'
  end.

End Platform.

(** The constructor.  [memory] is what the storage of [_displayCache]
    holds before the constructor runs (the constructor does not initialise
    the entries at or above [numdigits]). *)
Definition MAX72_ctor (memory : list Z) (chipSelect numdigits : Z)
    : outcome unit :=
  (cs <- get_chipSelect ;;
   emit (pinMode cs OUTPUT) ;;
   cs' <- get_chipSelect ;;
   emit (digitalWrite cs' HIGH) ;;
   emit SPI_begin ;;
   emit (SPI_setClockDivider CLOCK_DIVIDER) ;;
   emit (SPI_setBitOrder MSBFIRST) ;;
   emit (SPI_setDataMode SPI_MODE0) ;;
   writeRegister SHUTDOWN 0x0 ;;
   dispClear ;;
   n <- get_numDigits ;;
   writeRegister SCANLIMIT (u8 (n - 1)) ;;
   writeRegister DECODEMODE 0x0 ;;
   writeRegister INTENSITY 0xf ;;
   writeRegister SHUTDOWN 0x1)
    (mkMAX72 chipSelect numdigits memory []).

(** ** Register writes, as the chip sees them *)

(** A register write is an (address, value) pair: two bus words sent while
    the chip-select line of the chip is held low, taken over by the chip
    when the line goes high again.  [latch] follows the line and the words
    seen since it went low. *)
Inductive latch :=
| Idle
| Selected
| GotAddress (address : Z)
| GotData (address value : Z)
| Overrun.

Definition chip_step (cs : Z) (st : latch * list (Z * Z)) (e : bus_event)
    : latch * list (Z * Z) :=
  match e with
  | digitalWrite pin level =>
      if pin =? cs then
        if level =? LOW then (Selected, snd st)
        else
          match fst st with
          | GotData a v => (Idle, snd st ++ [(a, v)])
          | _ => (Idle, snd st)
          end
      else st
  | SPI_transfer b =>
      match fst st with
      | Idle => st
      | Selected => (GotAddress b, snd st)
      | GotAddress a => (GotData a b, snd st)
      | GotData _ _ => (Overrun, snd st)
      | Overrun => st
      end
  | _ => st
  end.

(** The register writes carried by a trace, oldest first. *)
Definition registerWrites (cs : Z) (t : list bus_event) : list (Z * Z) :=
  snd (fold_left (chip_step cs) t (Idle, [])).

(** The value a register holds after a sequence of writes: that of the
    most recent write to its address, if any. *)
Definition register_value (r : Z) (ws : list (Z * Z)) : option Z :=
  fold_left (fun acc w => if fst w =? r then Some (snd w) else acc) ws None.

(** All register writes issued by the object so far. *)
Definition issued (s : MAX72) : list (Z * Z) :=
  registerWrites (_chipSelect s) (wire s).

(** The bus traffic of one [writeRegister]. *)
Definition frame (cs r v : Z) : list bus_event :=
  [digitalWrite cs LOW; SPI_transfer r; SPI_transfer v; digitalWrite cs HIGH].

(** ** States the proofs talk about *)

(** The object after [writeRegister r v]. *)
Definition sent (r v : Z) (s : MAX72) : MAX72 :=
  mkMAX72 (_chipSelect s) (_numDigits s) (_displayCache s)
          (wire s ++ frame (_chipSelect s) r v).

(** The object after [_displayCache[i] = v; writeRegister(DIGITREGISTER(i),
    _displayCache[i])]. *)
Definition stored (i v : Z) (s : MAX72) : MAX72 :=
  mkMAX72 (_chipSelect s) (_numDigits s)
          (<[Z.to_nat i := v]> (_displayCache s))
          (wire s ++ frame (_chipSelect s) (u8 (DIGITREGISTER i)) v).

(** The object after [k] rounds of a loop that stores [f j] in digit [j],
    starting at digit [i]. *)
Fixpoint paint (f : Z -> Z) (k : nat) (i : Z) (s : MAX72) : MAX72 :=
  match k with
  | O => s
  | S k' => paint f k' (i + 1) (stored i (f i) s)
  end.

(** The cache has its eight entries and they are bytes. *)
Definition cache_ok (s : MAX72) : Prop :=
  length (_displayCache s) = 8%nat /\ Forall is_u8 (_displayCache s).

(** Every digit register that was written holds what the cache holds. *)
Definition consistent (s : MAX72) : Prop :=
  forall i v, 0 <= i < CACHE_SIZE ->
    register_value (DIGITREGISTER i) (issued s) = Some v ->
    _displayCache s !! Z.to_nat i = Some v.

(** Bit [i] of a mask. *)
Definition bit_set (mask i : Z) : bool := Z.testbit mask i.

(** The shape a loop keeps: digit count [n], eight cache entries. *)
Definition sized (n : Z) (s : MAX72) : Prop :=
  _numDigits s = n /\ length (_displayCache s) = 8%nat.

(** What the loops and the calls keep. *)
Definition mirrored (n : Z) (s : MAX72) : Prop := sized n s /\ consistent s.

(** The value digit [i] gets from the masks of [setMatrix]. *)
Definition matrix_value (digits segments i : Z) : Z :=
  if bit_set digits i then segments else 0.

(** The byte the cache holds for digit [i] (0 outside the array). *)
Definition cached (s : MAX72) (i : Z) : Z :=
  default 0 (_displayCache s !! Z.to_nat i).

(** [_displayCache[digit] | (HIGH << segment)], back in a byte. *)
Definition pixel_on (int_bits c segment : Z) : Z :=
  u8 (Z.lor c (sint int_bits (Z.shiftl HIGH segment))).

(** [_displayCache[digit] & ~(HIGH << segment)], back in a byte. *)
Definition pixel_off (int_bits c segment : Z) : Z :=
  u8 (Z.land c (Z.lnot (sint int_bits (Z.shiftl HIGH segment)))).

(** ** Programs over the public methods *)

(** Arguments with which a call stays inside the array and inside the
    [int] type. *)
Definition call_defined (int_bits : Z) (c : call) : Prop :=
  match c with
  | call_setDigit d _ => 0 <= d < 8
  | call_setPixel d g _ => 0 <= d < 8 /\ 0 <= g < int_bits
  | _ => True
  end.

(** A sketch: construct the object, then call its methods. *)
Definition program (int_bits : Z) (memory : list Z) (chipSelect numdigits : Z)
    (calls : list call) : outcome unit :=
  match MAX72_ctor memory chipSelect numdigits with
  | Done _ s => perform_all int_bits calls s
  | Undefined => Undefined
  | OutOfFuel => OutOfFuel
  end.

(** ** Drivers used as examples *)

(** Storage of an object with static storage duration: zeroed before the
    constructor runs. *)
Definition blank : list Z := [0; 0; 0; 0; 0; 0; 0; 0].

(** What the storage of an object with automatic storage duration may hold
    when the constructor starts. *)
Definition stale : list Z := [0xaa; 0xaa; 0xaa; 0xaa; 0xaa; 0xaa; 0xaa; 0xaa].

(** The object a constructor call leaves behind. *)
Definition constructed (memory : list Z) (chipSelect numdigits : Z) : MAX72 :=
  match MAX72_ctor memory chipSelect numdigits with
  | Done _ s => s
  | _ => mkMAX72 chipSelect numdigits memory []
  end.

(** [MAX72 display(10, n);] *)
Definition driver (n : Z) : MAX72 := constructed blank 10 n.

(** The object a method leaves behind. *)
Definition after (m : M unit) (s : MAX72) : MAX72 :=
  match m s with
  | Done _ s' => s'
  | _ => s
  end.

(** ** The bus and the full-frame methods *)

(** The bus traffic of a sequence of register writes. *)
Definition frames (cs : Z) (ws : list (Z * Z)) : list bus_event :=
  flat_map (fun w => frame cs (fst w) (snd w)) ws.

(** What the constructor does on the pin and on the bus before its first
    register write. *)
Definition setup (cs : Z) : list bus_event :=
  [pinMode cs OUTPUT; digitalWrite cs HIGH; SPI_begin;
   SPI_setClockDivider CLOCK_DIVIDER; SPI_setBitOrder MSBFIRST;
   SPI_setDataMode SPI_MODE0].

(** The methods whose loop rewrites every digit below the digit count, with
    the value each gives to digit [i]. *)
Definition frame_value (c : call) : option (Z -> Z) :=
  match c with
  | call_dispClear => Some (fun _ => 0)
  | call_dispAll => Some (fun _ => 255)
  | call_setMatrix digits segments => Some (matrix_value digits segments)
  | call_setColumns digits => Some (matrix_value digits 255)
  | call_setRows segments => Some (fun _ => segments)
  | _ => None
  end.

(** ** What a sequence of calls keeps *)

(** The bus trace of a state is the constructor's preamble followed by the
    frames of its register writes. *)
Definition framed (s : MAX72) : Prop :=
  wire s = setup (_chipSelect s) ++ frames (_chipSelect s) (issued s).

(** The configuration a state is left in by the constructor: display on,
    scan limit one below the digit count, no decoding, display test never
    touched, and an intensity of at most 15. *)
Definition configured (n : Z) (s : MAX72) : Prop :=
  register_value SHUTDOWN (issued s) = Some 1 /\
  register_value SCANLIMIT (issued s) = Some (n - 1) /\
  register_value DECODEMODE (issued s) = Some 0 /\
  register_value DISPLAYTEST (issued s) = None /\
  exists v, register_value INTENSITY (issued s) = Some v /\ v <= 15.

(** Every digit register below the digit count holds the cache entry of
    its digit. *)
Definition in_step (n : Z) (s : MAX72) : Prop :=
  forall i, 0 <= i < n ->
    register_value (i + 1) (issued s) = _displayCache s !! Z.to_nat i.

(** An object whose chip missed the last updates: the bus trace is empty
    although the cache is not. *)
Definition out_of_step : MAX72 := mkMAX72 10 3 [1; 2; 3; 4; 5; 6; 7; 8] [].

(** * Properties *)

(** ** The monad *)

Lemma bind_Done {A B} (m : M A) (k : A -> M B) s a s' :
  m s = Done a s' -> bind m k s = k a s'.
Proof. unfold bind. intros ->. reflexivity. Qed.

Lemma bind_Undefined {A B} (m : M A) (k : A -> M B) s :
  m s = Undefined -> bind m k s = Undefined.
Proof. unfold bind. intros ->. reflexivity. Qed.

(** ** Decoding the bus *)

Lemma chip_step_frame cs r v st :
  fold_left (chip_step cs) (frame cs r v) st = (Idle, snd st ++ [(r, v)]).
Proof.
  unfold frame. cbn [fold_left].
  unfold chip_step at 4. rewrite Z.eqb_refl. cbn [Z.eqb LOW fst snd].
  unfold chip_step at 3. cbn [fst snd].
  unfold chip_step at 2. cbn [fst snd].
  unfold chip_step. rewrite Z.eqb_refl. reflexivity.
Qed.

Lemma registerWrites_frame cs t r v :
  registerWrites cs (t ++ frame cs r v) = registerWrites cs t ++ [(r, v)].
Proof.
  unfold registerWrites. rewrite fold_left_app, chip_step_frame. reflexivity.
Qed.

Lemma register_value_snoc r ws a v :
  register_value r (ws ++ [(a, v)]) =
  if a =? r then Some v else register_value r ws.
Proof. unfold register_value. rewrite fold_left_app. reflexivity. Qed.

(** ** The primitives *)

Lemma writeRegister_sent r v s : writeRegister r v s = Done tt (sent r v s).
Proof.
  unfold writeRegister, bind, get_chipSelect, emit, sent, frame. cbn.
  rewrite <- !app_assoc. reflexivity.
Qed.

Lemma in_cache i : 0 <= i < 8 -> (0 <=? i) && (i <? CACHE_SIZE) = true.
Proof. unfold CACHE_SIZE. intros H. apply andb_true_iff. lia. Qed.

Lemma off_cache i : 8 <= i -> (0 <=? i) && (i <? CACHE_SIZE) = false.
Proof. unfold CACHE_SIZE. intros H. apply andb_false_iff. lia. Qed.

Lemma cache_get_Done i v s :
  0 <= i < 8 -> _displayCache s !! Z.to_nat i = Some v ->
  cache_get i s = Done v s.
Proof. intros Hi Hv. unfold cache_get. rewrite in_cache, Hv; auto. Qed.

Lemma cache_set_off i v s : 8 <= i -> cache_set i v s = Undefined.
Proof. intros Hi. unfold cache_set. rewrite off_cache; auto. Qed.

Lemma cache_slot i s :
  0 <= i < 8 -> length (_displayCache s) = 8%nat ->
  exists c, _displayCache s !! Z.to_nat i = Some c.
Proof.
  intros Hi Hl.
  destruct (lookup_lt_is_Some_2 (_displayCache s) (Z.to_nat i)) as [c Hc];
    [lia | eauto].
Qed.

(** [_displayCache[i] = v; writeRegister(DIGITREGISTER(i), _displayCache[i])] *)
Lemma store_and_send i v s :
  0 <= i < 8 -> length (_displayCache s) = 8%nat ->
  (cache_set i v ;; x <- cache_get i ;; writeRegister (u8 (DIGITREGISTER i)) x) s
  = Done tt (stored i v s).
Proof.
  intros Hi Hl. destruct (cache_slot i s Hi Hl) as [c Hc].
  unfold bind at 1. unfold cache_set. rewrite in_cache, Hc by assumption.
  erewrite bind_Done.
  2:{ apply cache_get_Done; [assumption|]. cbn.
      apply list_lookup_insert_eq. lia. }
  rewrite writeRegister_sent. reflexivity.
Qed.

Lemma store_and_send_off i v s :
  8 <= i ->
  (cache_set i v ;; x <- cache_get i ;; writeRegister (u8 (DIGITREGISTER i)) x) s
  = Undefined.
Proof. intros Hi. apply bind_Undefined, cache_set_off, Hi. Qed.

(** [writeRegister(DIGITREGISTER(i), _displayCache[i])] stores nothing new. *)
Lemma send_cached i c s :
  0 <= i < 8 -> _displayCache s !! Z.to_nat i = Some c ->
  (x <- cache_get i ;; writeRegister (u8 (DIGITREGISTER i)) x) s
  = Done tt (stored i c s).
Proof.
  intros Hi Hc. erewrite bind_Done by (apply cache_get_Done; eassumption).
  rewrite writeRegister_sent. unfold sent, stored.
  rewrite list_insert_id by assumption. reflexivity.
Qed.

Lemma u8_small x : 0 <= x < 256 -> u8 x = x.
Proof. intros H. unfold u8. apply Z.mod_small. lia. Qed.

Lemma u8_digit_register i : 0 <= i < 8 -> u8 (DIGITREGISTER i) = i + 1.
Proof. intros H. unfold DIGITREGISTER. apply u8_small. lia. Qed.

Lemma below_numDigits_Done i s :
  below_numDigits i s = Done (i <? _numDigits s) s.
Proof. reflexivity. Qed.

Lemma digit_guard_Done d s :
  digit_guard d s = Done (Z.b2z (0 <=? d) <? _numDigits s) s.
Proof. reflexivity. Qed.

(** ** Loops over the digits *)

Section Loops.

Context {A : Type}.
Variable idx : A -> Z.
Variable at_digit : Z -> A.
Variable incr : A -> A.
Variable body : A -> M unit.
Variable f : Z -> Z.
Variable Inv : MAX72 -> Prop.
Variable n : Z.

Hypothesis idx_at : forall j, 0 <= j <= n -> idx (at_digit j) = j.
Hypothesis incr_at : forall j, 0 <= j < n -> incr (at_digit j) = at_digit (j + 1).
Hypothesis Inv_numDigits : forall s, Inv s -> _numDigits s = n.
Hypothesis body_stores : forall j s, 0 <= j < n -> Inv s ->
  body (at_digit j) s = Done tt (stored j (f j) s) /\ Inv (stored j (f j) s).

Lemma for_loop_paint k : forall fuel i s,
  0 <= i -> i + Z.of_nat k = n -> (k < fuel)%nat -> Inv s ->
  for_loop fuel (fun a => below_numDigits (idx a)) incr body (at_digit i) s
  = Done tt (paint f k i s) /\ Inv (paint f k i s).
Proof.
  induction k as [|k IH]; intros fuel i s Hi Hk Hfuel HI;
    (destruct fuel as [|fuel]; [lia|]); cbn [for_loop paint].
  - erewrite bind_Done by apply below_numDigits_Done.
    rewrite idx_at, (Inv_numDigits s HI) by lia.
    rewrite (proj2 (Z.ltb_ge i n)) by lia. auto.
  - erewrite bind_Done by apply below_numDigits_Done.
    rewrite idx_at, (Inv_numDigits s HI) by lia.
    rewrite (proj2 (Z.ltb_lt i n)) by lia.
    destruct (body_stores i s) as [Hb HI']; [lia | assumption |].
    erewrite bind_Done by exact Hb. rewrite incr_at by lia.
    apply IH; [lia | lia | lia | assumption].
Qed.

End Loops.

(** ** The states reached by a loop *)

Lemma stored_length i v s :
  length (_displayCache (stored i v s)) = length (_displayCache s).
Proof. cbn. apply length_insert. Qed.

Lemma stored_cache_ok i v s : is_u8 v -> cache_ok s -> cache_ok (stored i v s).
Proof.
  intros Hv [Hl Hb]. split.
  - rewrite stored_length. exact Hl.
  - cbn. apply Forall_insert; assumption.
Qed.

Lemma stored_issued i v s :
  issued (stored i v s) = issued s ++ [(u8 (DIGITREGISTER i), v)].
Proof. unfold issued. cbn. apply registerWrites_frame. Qed.

Lemma sent_issued r v s : issued (sent r v s) = issued s ++ [(r, v)].
Proof. unfold issued. cbn. apply registerWrites_frame. Qed.

Lemma paint_numDigits f k : forall i s,
  _numDigits (paint f k i s) = _numDigits s.
Proof. induction k as [|k IH]; intros i s; cbn; [|rewrite IH]; reflexivity. Qed.

Lemma paint_length f k : forall i s,
  length (_displayCache (paint f k i s)) = length (_displayCache s).
Proof.
  induction k as [|k IH]; intros i s; cbn [paint]; [reflexivity|].
  rewrite IH. apply stored_length.
Qed.

Lemma paint_cache_ok f k : forall i s,
  (forall j, i <= j < i + Z.of_nat k -> is_u8 (f j)) ->
  cache_ok s -> cache_ok (paint f k i s).
Proof.
  induction k as [|k IH]; intros i s Hf Hs; cbn [paint]; [assumption|].
  apply IH; [intros j Hj; apply Hf; lia|].
  apply stored_cache_ok; [apply Hf; lia | assumption].
Qed.

(** Digits outside the range of the loop keep their cache entry. *)
Lemma paint_cache_outside f k : forall i s j,
  0 <= i -> 0 <= j -> j < i \/ i + Z.of_nat k <= j ->
  _displayCache (paint f k i s) !! Z.to_nat j = _displayCache s !! Z.to_nat j.
Proof.
  induction k as [|k IH]; intros i s j Hi Hj Hout; cbn [paint]; [reflexivity|].
  rewrite IH by lia. cbn. apply list_lookup_insert_ne. lia.
Qed.

(** Digits inside the range hold the value the loop gave them. *)
Lemma paint_cache_inside f k : forall i s j,
  0 <= i -> i <= j < i + Z.of_nat k ->
  (Z.to_nat j < length (_displayCache s))%nat ->
  _displayCache (paint f k i s) !! Z.to_nat j = Some (f j).
Proof.
  induction k as [|k IH]; intros i s j Hi Hj Hl; cbn [paint]; [lia|].
  destruct (Z.eq_dec j i) as [->|Hne].
  - rewrite paint_cache_outside by lia. cbn.
    apply list_lookup_insert_eq. exact Hl.
  - apply IH; [lia | lia |]. rewrite stored_length. exact Hl.
Qed.

(** The loop issues one register write per digit, in ascending order. *)
Lemma paint_issued f k : forall i s,
  issued (paint f k i s) =
  issued s ++ map (fun j => (u8 (DIGITREGISTER j), f j)) (seqZ i (Z.of_nat k)).
Proof.
  induction k as [|k IH]; intros i s; cbn [paint].
  - cbn. rewrite app_nil_r. reflexivity.
  - rewrite IH, stored_issued, <- app_assoc.
    rewrite (seqZ_cons i (Z.of_nat (S k))) by lia.
    replace (Z.pred (Z.of_nat (S k))) with (Z.of_nat k) by lia.
    replace (Z.succ i) with (i + 1) by lia. reflexivity.
Qed.

Lemma digit_registers (f : Z -> Z) i k :
  0 <= i -> i + k <= 255 ->
  map (fun j => (u8 (DIGITREGISTER j), f j)) (seqZ i k) =
  map (fun j => (DIGITREGISTER j, f j)) (seqZ i k).
Proof.
  intros Hi Hk. apply map_ext_in. intros j Hj.
  apply list_elem_of_In, elem_of_seqZ in Hj.
  unfold DIGITREGISTER. rewrite u8_small by lia. reflexivity.
Qed.

(** ** The column mask of [setMatrix] and [setColumns] *)

Lemma colmask_shift x : u8 (Z.shiftl (u8 x) 1) = u8 (2 * x).
Proof.
  unfold u8. rewrite Z.shiftl_mul_pow2 by lia. change (2 ^ 1) with 2.
  rewrite Z.mul_mod_idemp_l by lia. f_equal. lia.
Qed.

Lemma colmask_next j : 0 <= j ->
  u8 (Z.shiftl (u8 (2 ^ j)) 1) = u8 (2 ^ (j + 1)).
Proof.
  intros Hj. rewrite colmask_shift. replace (j + 1) with (Z.succ j) by lia.
  rewrite Z.pow_succ_r by lia. reflexivity.
Qed.

Lemma colmask_test digits j : 0 <= j ->
  negb (Z.land (2 ^ j) digits =? 0) = bit_set digits j.
Proof.
  intros Hj. unfold bit_set.
  destruct (Z.testbit digits j) eqn:Hb.
  - assert (H : Z.land (2 ^ j) digits = 2 ^ j).
    { apply Z.bits_inj'. intros m Hm.
      rewrite Z.land_spec, Z.pow2_bits_eqb by lia.
      destruct (Z.eqb_spec j m) as [<-|]; [rewrite Hb|]; reflexivity. }
    rewrite H. destruct (Z.eqb_spec (2 ^ j) 0) as [E|]; [|reflexivity].
    pose proof (Z.pow_pos_nonneg 2 j). lia.
  - assert (H : Z.land (2 ^ j) digits = 0).
    { apply Z.bits_inj'. intros m Hm.
      rewrite Z.land_spec, Z.pow2_bits_eqb, Z.bits_0 by lia.
      destruct (Z.eqb_spec j m) as [<-|]; [rewrite Hb|]; reflexivity. }
    rewrite H. reflexivity.
Qed.

Lemma colmask_small j : 0 <= j < 8 -> u8 (2 ^ j) = 2 ^ j.
Proof.
  intros Hj. apply u8_small. split; [apply Z.pow_nonneg; lia|].
  change 256 with (2 ^ 8). apply Z.pow_lt_mono_r; lia.
Qed.

(** ** What each loop method does on a driver of at most eight digits *)

Lemma sized_stored n i v s : sized n s -> sized n (stored i v s).
Proof. intros [Hn Hl]. split; [exact Hn | rewrite stored_length; exact Hl]. Qed.

(** A loop [for (uint8_t i = 0; i < _numDigits; i++)] whose body stores
    [f i] in digit [i] and sends it. *)
Lemma counting_loop (f : Z -> Z) s :
  0 <= _numDigits s <= 8 -> length (_displayCache s) = 8%nat ->
  for_loop FUEL below_numDigits (fun i => u8 (i + 1))
    (fun i =>
       cache_set i (f i) ;;
       v <- cache_get i ;;
       writeRegister (u8 (DIGITREGISTER i)) v) 0 s
  = Done tt (paint f (Z.to_nat (_numDigits s)) 0 s).
Proof.
  intros Hn Hl.
  refine (proj1 (for_loop_paint (fun i : Z => i) (fun i : Z => i) _ _ f
                   (sized (_numDigits s)) (_numDigits s) _ _ _ _
                   (Z.to_nat (_numDigits s)) FUEL 0 s _ _ _ _)).
  - reflexivity.
  - intros j Hj. apply u8_small. lia.
  - intros s' [H _]. exact H.
  - intros j s' Hj Hs'. split; [|apply sized_stored, Hs'].
    apply store_and_send; [lia | apply Hs'].
  - lia.
  - lia.
  - unfold FUEL. lia.
  - split; [reflexivity | exact Hl].
Qed.

Lemma dispClear_paint s :
  0 <= _numDigits s <= 8 -> length (_displayCache s) = 8%nat ->
  dispClear s = Done tt (paint (fun _ => 0) (Z.to_nat (_numDigits s)) 0 s).
Proof. apply (counting_loop (fun _ => 0)). Qed.

Lemma dispAll_paint s :
  0 <= _numDigits s <= 8 -> length (_displayCache s) = 8%nat ->
  dispAll s = Done tt (paint (fun _ => 255) (Z.to_nat (_numDigits s)) 0 s).
Proof. apply (counting_loop (fun _ => 255)). Qed.

Lemma setRows_paint segments s :
  0 <= _numDigits s <= 8 -> length (_displayCache s) = 8%nat ->
  setRows segments s
  = Done tt (paint (fun _ => segments) (Z.to_nat (_numDigits s)) 0 s).
Proof. apply (counting_loop (fun _ => segments)). Qed.

(** A loop that carries [colmask] next to [i] and stores [on] in the digits
    selected by [digits] and [0x0] in the others. *)
Lemma masked_loop digits on s :
  0 <= _numDigits s <= 8 -> length (_displayCache s) = 8%nat ->
  for_loop FUEL (fun ic => below_numDigits (fst ic))
    (fun ic => (u8 (fst ic + 1), u8 (Z.shiftl (snd ic) 1)))
    (fun ic =>
       let i := fst ic in
       let colmask := snd ic in
       if negb (Z.land colmask digits =? 0) then
         cache_set i on ;;
         v <- cache_get i ;;
         writeRegister (u8 (DIGITREGISTER i)) v
       else
         cache_set i 0x0 ;;
         v <- cache_get i ;;
         writeRegister (u8 (DIGITREGISTER i)) v)
    (0, 1) s
  = Done tt (paint (matrix_value digits on) (Z.to_nat (_numDigits s)) 0 s).
Proof.
  intros Hn Hl.
  refine (proj1 (for_loop_paint fst (fun j : Z => (j, u8 (2 ^ j))) _ _
                   (matrix_value digits on)
                   (sized (_numDigits s)) (_numDigits s) _ _ _ _
                   (Z.to_nat (_numDigits s)) FUEL 0 s _ _ _ _)).
  - reflexivity.
  - intros j Hj. cbn [fst snd].
    rewrite colmask_next, (u8_small (j + 1)) by lia. reflexivity.
  - intros s' [H _]. exact H.
  - intros j s' Hj Hs'. split; [|apply sized_stored, Hs'].
    cbn [fst snd]. rewrite colmask_small, colmask_test by lia.
    unfold matrix_value.
    destruct (bit_set digits j); apply store_and_send; solve [lia | apply Hs'].
  - lia.
  - lia.
  - unfold FUEL. lia.
  - split; [reflexivity | exact Hl].
Qed.

Lemma setMatrix_paint digits segments s :
  0 <= _numDigits s <= 8 -> length (_displayCache s) = 8%nat ->
  setMatrix digits segments s
  = Done tt (paint (matrix_value digits segments)
                   (Z.to_nat (_numDigits s)) 0 s).
Proof. apply masked_loop. Qed.

Lemma setColumns_paint digits s :
  0 <= _numDigits s <= 8 -> length (_displayCache s) = 8%nat ->
  setColumns digits s
  = Done tt (paint (matrix_value digits 255) (Z.to_nat (_numDigits s)) 0 s).
Proof. apply masked_loop. Qed.

Lemma dispRefresh_paint s :
  0 <= _numDigits s <= 8 -> length (_displayCache s) = 8%nat ->
  dispRefresh s = Done tt (paint (cached s) (Z.to_nat (_numDigits s)) 0 s).
Proof.
  intros Hn Hl.
  refine (proj1 (for_loop_paint (fun i : Z => i) (fun i : Z => i) _ _
                   (cached s)
                   (fun s' => _numDigits s' = _numDigits s /\
                              _displayCache s' = _displayCache s)
                   (_numDigits s) _ _ _ _
                   (Z.to_nat (_numDigits s)) FUEL 0 s _ _ _ _)).
  - reflexivity.
  - intros j Hj. apply u8_small. lia.
  - intros s' [H _]. exact H.
  - intros j s' Hj [Hn' Hc'].
    assert (Hj' : _displayCache s' !! Z.to_nat j = Some (cached s j)).
    { rewrite Hc'. unfold cached.
      destruct (cache_slot j s) as [c ->]; [lia | exact Hl | reflexivity]. }
    split.
    + apply send_cached; [lia | exact Hj'].
    + split; [exact Hn'|]. cbn. rewrite list_insert_id; assumption.
  - lia.
  - lia.
  - unfold FUEL. lia.
  - split; reflexivity.
Qed.

(** [dispRefresh] stores every entry back on itself: the cache is the same
    list afterwards. *)
Lemma paint_cached_cache s k : forall i s',
  _displayCache s' = _displayCache s ->
  _displayCache (paint (cached s) k i s') = _displayCache s.
Proof.
  induction k as [|k IH]; intros i s' Hs'; cbn [paint]; [exact Hs'|].
  apply IH. cbn. rewrite Hs'. unfold cached.
  destruct (_displayCache s !! Z.to_nat i) as [c|] eqn:Hc.
  - apply list_insert_id. exact Hc.
  - apply list_insert_ge. apply lookup_ge_None. exact Hc.
Qed.

Lemma paint_ext f g k : forall i s,
  (forall j, i <= j < i + Z.of_nat k -> f j = g j) ->
  paint f k i s = paint g k i s.
Proof.
  induction k as [|k IH]; intros i s H; cbn [paint]; [reflexivity|].
  rewrite (H i) by lia. apply IH. intros j Hj. apply H. lia.
Qed.

(** ** The guard of [setDigit] and [setPixel] *)

(** The guard does not look at the digit: it compares 1 (or 0, for a
    negative index, which a [uint8_t] never is) with [_numDigits]. *)
Lemma digit_guard_passes d s :
  2 <= _numDigits s -> digit_guard d s = Done true s.
Proof.
  intros Hn. rewrite digit_guard_Done. f_equal. apply Z.ltb_lt.
  destruct (0 <=? d); cbn; lia.
Qed.

Lemma digit_guard_blocks d s :
  0 <= d -> _numDigits s <= 1 -> digit_guard d s = Done false s.
Proof.
  intros Hd Hn. rewrite digit_guard_Done. f_equal. apply Z.ltb_ge.
  rewrite (proj2 (Z.leb_le 0 d)) by lia. cbn. lia.
Qed.

Lemma setDigit_stores d v s :
  2 <= _numDigits s -> 0 <= d < 8 -> length (_displayCache s) = 8%nat ->
  setDigit d v s = Done tt (stored d v s).
Proof.
  intros Hn Hd Hl. unfold setDigit.
  erewrite bind_Done by (apply digit_guard_passes; assumption).
  apply store_and_send; assumption.
Qed.

Lemma setDigit_off_cache d v s :
  2 <= _numDigits s -> 8 <= d -> setDigit d v s = Undefined.
Proof.
  intros Hn Hd. unfold setDigit.
  erewrite bind_Done by (apply digit_guard_passes; assumption).
  apply store_and_send_off; assumption.
Qed.

Lemma setDigit_blocked d v s :
  0 <= d -> _numDigits s <= 1 -> setDigit d v s = Done tt s.
Proof.
  intros Hd Hn. unfold setDigit.
  erewrite bind_Done by (apply digit_guard_blocks; assumption).
  reflexivity.
Qed.

(** ** The bit arithmetic of [setPixel] *)

Lemma sint_mod bits x : 0 < bits -> sint bits x mod 2 ^ bits = x mod 2 ^ bits.
Proof.
  intros Hb. unfold sint.
  assert (0 < 2 ^ bits) by (apply Z.pow_pos_nonneg; lia).
  rewrite Zminus_mod_idemp_l. f_equal. lia.
Qed.

Lemma testbit_sint bits x m :
  0 <= m < bits -> Z.testbit (sint bits x) m = Z.testbit x m.
Proof.
  intros Hm.
  rewrite <- (Z.mod_pow2_bits_low (sint bits x) bits m) by lia.
  rewrite sint_mod by lia. apply Z.mod_pow2_bits_low. lia.
Qed.

Lemma testbit_u8 x m : Z.testbit (u8 x) m = (m <? 8) && Z.testbit x m.
Proof. unfold u8. change 256 with (2 ^ 8). apply Z.testbit_mod_pow2. lia. Qed.

Lemma testbit_byte c m : is_u8 c -> 8 <= m -> Z.testbit c m = false.
Proof.
  intros Hc Hm. rewrite <- (u8_small c Hc), testbit_u8.
  rewrite (proj2 (Z.ltb_ge m 8)) by lia. reflexivity.
Qed.

Lemma testbit_pixel_bit int_bits segment m :
  8 <= int_bits -> 0 <= segment < int_bits -> 0 <= m < 8 ->
  Z.testbit (sint int_bits (Z.shiftl HIGH segment)) m = (segment =? m).
Proof.
  intros Hw Hs Hm. rewrite testbit_sint by lia.
  unfold HIGH. rewrite Z.shiftl_1_l. apply Z.pow2_bits_eqb. lia.
Qed.

Lemma pixel_on_setbit int_bits c segment :
  8 <= int_bits -> 0 <= segment < int_bits ->
  pixel_on int_bits c segment = u8 (Z.setbit c segment).
Proof.
  intros Hw Hs. apply Z.bits_inj'. intros m Hm. unfold pixel_on.
  rewrite !testbit_u8. destruct (Z.ltb_spec m 8); [|reflexivity]. cbn [andb].
  rewrite Z.lor_spec, testbit_pixel_bit, Z.setbit_eqb by lia.
  apply orb_comm.
Qed.

Lemma pixel_off_clearbit int_bits c segment :
  8 <= int_bits -> 0 <= segment < int_bits ->
  pixel_off int_bits c segment = u8 (Z.clearbit c segment).
Proof.
  intros Hw Hs. apply Z.bits_inj'. intros m Hm. unfold pixel_off.
  rewrite !testbit_u8. destruct (Z.ltb_spec m 8); [|reflexivity]. cbn [andb].
  rewrite Z.land_spec, Z.lnot_spec, testbit_pixel_bit, Z.clearbit_eqb by lia.
  reflexivity.
Qed.

Lemma pixel_on_is_u8 int_bits c segment : is_u8 (pixel_on int_bits c segment).
Proof. unfold pixel_on, u8, is_u8. apply Z.mod_pos_bound. lia. Qed.

Lemma pixel_off_is_u8 int_bits c segment : is_u8 (pixel_off int_bits c segment).
Proof. unfold pixel_off, u8, is_u8. apply Z.mod_pos_bound. lia. Qed.

(** A bit outside the byte: the OR adds nothing. *)
Lemma pixel_on_high int_bits c segment :
  8 <= int_bits -> 8 <= segment < int_bits -> is_u8 c ->
  pixel_on int_bits c segment = c.
Proof.
  intros Hw Hs Hc. rewrite pixel_on_setbit by lia.
  rewrite <- (u8_small c Hc) at 2.
  apply Z.bits_inj'. intros m Hm. rewrite !testbit_u8.
  destruct (Z.ltb_spec m 8); [|reflexivity]. cbn [andb].
  rewrite Z.setbit_eqb by lia.
  destruct (Z.eqb_spec segment m); [lia | reflexivity].
Qed.

(** A bit outside the byte: the AND clears nothing. *)
Lemma pixel_off_high int_bits c segment :
  8 <= int_bits -> 8 <= segment < int_bits -> is_u8 c ->
  pixel_off int_bits c segment = c.
Proof.
  intros Hw Hs Hc. rewrite pixel_off_clearbit by lia.
  rewrite <- (u8_small c Hc) at 2.
  apply Z.bits_inj'. intros m Hm. rewrite !testbit_u8.
  destruct (Z.ltb_spec m 8); [|reflexivity]. cbn [andb].
  rewrite Z.clearbit_eqb.
  destruct (Z.eqb_spec segment m); [lia | apply andb_true_r].
Qed.

(** Setting a bit and clearing it again leaves the byte with that bit
    cleared. *)
Lemma pixel_on_off int_bits c segment :
  8 <= int_bits -> 0 <= segment < int_bits -> is_u8 c ->
  pixel_off int_bits (pixel_on int_bits c segment) segment
  = Z.clearbit c segment.
Proof.
  intros Hw Hs Hc. rewrite pixel_off_clearbit, pixel_on_setbit by lia.
  apply Z.bits_inj'. intros m Hm.
  rewrite testbit_u8, !Z.clearbit_eqb, testbit_u8, Z.setbit_eqb by lia.
  destruct (Z.ltb_spec m 8).
  - destruct (Z.eqb_spec segment m), (Z.testbit c m); reflexivity.
  - rewrite (testbit_byte c m) by (assumption || lia). reflexivity.
Qed.

Lemma clearbit_clear c segment :
  0 <= segment -> Z.testbit c segment = false -> Z.clearbit c segment = c.
Proof.
  intros Hs Hb. apply Z.bits_inj'. intros m Hm. rewrite Z.clearbit_eqb.
  destruct (Z.eqb_spec segment m) as [<-|]; cbn.
  - rewrite Hb. reflexivity.
  - apply andb_true_r.
Qed.

(** ** [setPixel] *)

Lemma cached_lookup s i c :
  _displayCache s !! Z.to_nat i = Some c -> cached s i = c.
Proof. unfold cached. intros ->. reflexivity. Qed.

Lemma cached_is_u8 s i : cache_ok s -> is_u8 (cached s i).
Proof.
  intros [_ Hb]. unfold cached.
  destruct (_displayCache s !! Z.to_nat i) as [c|] eqn:Hc; cbn.
  - eapply Forall_lookup_1; eassumption.
  - unfold is_u8. lia.
Qed.

Lemma cached_stored i v s :
  (Z.to_nat i < length (_displayCache s))%nat -> cached (stored i v s) i = v.
Proof.
  intros Hl. apply cached_lookup. cbn. apply list_lookup_insert_eq. exact Hl.
Qed.

Lemma setPixel_stores int_bits d segment (state : bool) s :
  2 <= _numDigits s -> 0 <= d < 8 -> 0 <= segment < int_bits ->
  length (_displayCache s) = 8%nat ->
  setPixel int_bits d segment state s
  = Done tt (stored d (if state then pixel_on int_bits (cached s d) segment
                       else pixel_off int_bits (cached s d) segment) s).
Proof.
  intros Hn Hd Hs Hl. destruct (cache_slot d s Hd Hl) as [c Hc].
  rewrite (cached_lookup s d c Hc). unfold setPixel.
  erewrite bind_Done by (apply digit_guard_passes; assumption).
  cbn [negb].
  assert (Hsh : shl_int int_bits HIGH segment s
                = Done (sint int_bits (Z.shiftl HIGH segment)) s).
  { unfold shl_int.
    rewrite (proj2 (andb_true_iff _ _)) by (split; [apply Z.leb_le | apply Z.ltb_lt]; lia).
    reflexivity. }
  destruct state.
  - erewrite bind_Done by exact Hsh.
    erewrite bind_Done by (apply cache_get_Done; eassumption).
    apply store_and_send; assumption.
  - erewrite bind_Done by exact Hsh.
    erewrite bind_Done by (apply cache_get_Done; eassumption).
    apply store_and_send; assumption.
Qed.

Lemma setPixel_blocked int_bits d segment state s :
  0 <= d -> _numDigits s <= 1 ->
  setPixel int_bits d segment state s = Done tt s.
Proof.
  intros Hd Hn. unfold setPixel.
  erewrite bind_Done by (apply digit_guard_blocks; assumption).
  reflexivity.
Qed.

(** ** The cache mirrors the digit registers *)

Lemma consistent_stored i v s :
  0 <= i < 8 -> length (_displayCache s) = 8%nat ->
  consistent s -> consistent (stored i v s).
Proof.
  intros Hi Hl Hs j w Hj Hreg. unfold CACHE_SIZE in Hj.
  rewrite stored_issued, u8_digit_register, register_value_snoc in Hreg by lia.
  unfold DIGITREGISTER in Hreg. cbn [_displayCache stored].
  destruct (Z.eqb_spec (i + 1) (j + 1)) as [E|E].
  - assert (j = i) by lia. subst j. injection Hreg as <-.
    apply list_lookup_insert_eq. lia.
  - rewrite list_lookup_insert_ne by lia. apply Hs; assumption.
Qed.

Lemma consistent_sent r v s :
  8 < r -> consistent s -> consistent (sent r v s).
Proof.
  intros Hr Hs j w Hj Hreg. unfold CACHE_SIZE in Hj.
  rewrite sent_issued, register_value_snoc in Hreg.
  unfold DIGITREGISTER in Hreg.
  destruct (Z.eqb_spec r (j + 1)) as [E|E]; [lia|].
  cbn [_displayCache sent]. apply Hs; assumption.
Qed.

Lemma consistent_paint f k : forall i s,
  0 <= i -> i + Z.of_nat k <= 8 -> length (_displayCache s) = 8%nat ->
  consistent s -> consistent (paint f k i s).
Proof.
  induction k as [|k IH]; intros i s Hi Hk Hl Hs; cbn [paint]; [assumption|].
  apply IH; [lia | lia | rewrite stored_length; assumption |].
  apply consistent_stored; [lia | assumption | assumption].
Qed.

Lemma sized_paint n f k i s : sized n s -> sized n (paint f k i s).
Proof.
  intros [Hn Hl]. split; [rewrite paint_numDigits | rewrite paint_length];
    assumption.
Qed.

Lemma sized_sent n r v s : sized n s -> sized n (sent r v s).
Proof. intros H. exact H. Qed.

(** The object the constructor builds. *)
Lemma MAX72_ctor_Done memory chipSelect n :
  length memory = 8%nat -> 0 <= n <= 8 ->
  MAX72_ctor memory chipSelect n =
  Done tt
    (sent SHUTDOWN 1 (sent INTENSITY 15 (sent DECODEMODE 0
      (sent SCANLIMIT (u8 (n - 1))
        (paint (fun _ => 0) (Z.to_nat n) 0
          (sent SHUTDOWN 0
            (mkMAX72 chipSelect n memory
               [pinMode chipSelect OUTPUT; digitalWrite chipSelect HIGH;
                SPI_begin; SPI_setClockDivider CLOCK_DIVIDER;
                SPI_setBitOrder MSBFIRST; SPI_setDataMode SPI_MODE0]))))))).
Proof.
  intros Hl Hn. unfold MAX72_ctor.
  do 8 (erewrite bind_Done by reflexivity). cbn [app _chipSelect].
  erewrite bind_Done by apply writeRegister_sent.
  erewrite bind_Done by (apply dispClear_paint; assumption).
  erewrite bind_Done by reflexivity. rewrite paint_numDigits. cbn [_numDigits sent].
  do 3 (erewrite bind_Done by apply writeRegister_sent).
  apply writeRegister_sent.
Qed.

Lemma MAX72_ctor_consistent memory chipSelect n :
  length memory = 8%nat -> 0 <= n <= 8 ->
  exists s, MAX72_ctor memory chipSelect n = Done tt s /\
            sized n s /\ consistent s.
Proof.
  intros Hl Hn. eexists. split; [apply MAX72_ctor_Done; assumption|].
  assert (H0 : sized n (mkMAX72 chipSelect n memory
               [pinMode chipSelect OUTPUT; digitalWrite chipSelect HIGH;
                SPI_begin; SPI_setClockDivider CLOCK_DIVIDER;
                SPI_setBitOrder MSBFIRST; SPI_setDataMode SPI_MODE0]))
    by (split; [reflexivity | exact Hl]).
  split.
  - do 4 apply sized_sent. apply sized_paint, sized_sent, H0.
  - do 4 (apply consistent_sent; [reflexivity|]).
    apply consistent_paint; [lia | lia | exact Hl |].
    apply consistent_sent; [reflexivity|].
    intros j w _ Hreg. exfalso. revert Hreg.
    unfold issued, registerWrites. cbn. rewrite Z.eqb_refl. cbn. discriminate.
Qed.

(** ** What a call can do to the object *)

Lemma store_and_send_Done i v s s' :
  length (_displayCache s) = 8%nat ->
  (cache_set i v ;; x <- cache_get i ;; writeRegister (u8 (DIGITREGISTER i)) x) s
  = Done tt s' ->
  0 <= i < 8 /\ s' = stored i v s.
Proof.
  intros Hl H. destruct (Z.lt_ge_cases i 0) as [Hneg|Hpos].
  - exfalso. revert H. unfold bind at 1, cache_set.
    rewrite (proj2 (Z.leb_gt 0 i)) by lia. discriminate.
  - destruct (Z.lt_ge_cases i 8) as [Hin|Hout].
    + rewrite store_and_send in H by (lia || assumption).
      injection H as <-. split; [lia | reflexivity].
    + rewrite store_and_send_off in H by assumption. discriminate H.
Qed.

Lemma setDigit_Done d v s s' :
  length (_displayCache s) = 8%nat ->
  setDigit d v s = Done tt s' ->
  s' = s \/ (0 <= d < 8 /\ s' = stored d v s).
Proof.
  intros Hl. unfold setDigit.
  erewrite bind_Done by apply digit_guard_Done.
  destruct (Z.b2z (0 <=? d) <? _numDigits s).
  - intros H. right. eapply store_and_send_Done; eassumption.
  - intros H. injection H as <-. left. reflexivity.
Qed.

Lemma setPixel_Done int_bits d segment state s s' :
  length (_displayCache s) = 8%nat ->
  setPixel int_bits d segment state s = Done tt s' ->
  s' = s \/ (0 <= d < 8 /\ exists v, s' = stored d v s).
Proof.
  intros Hl. unfold setPixel.
  erewrite bind_Done by apply digit_guard_Done.
  destruct (Z.b2z (0 <=? d) <? _numDigits s); cbn [negb].
  2:{ intros H. injection H as <-. left. reflexivity. }
  assert (Hsh : shl_int int_bits HIGH segment s = Undefined \/
                exists b, shl_int int_bits HIGH segment s = Done b s).
  { unfold shl_int. destruct ((0 <=? segment) && (segment <? int_bits));
      [right; eexists; reflexivity | left; reflexivity]. }
  assert (Hget : cache_get d s = Undefined \/
                 exists c, cache_get d s = Done c s).
  { unfold cache_get. destruct ((0 <=? d) && (d <? CACHE_SIZE));
      [|left; reflexivity].
    destruct (_displayCache s !! Z.to_nat d);
      [right; eexists; reflexivity | left; reflexivity]. }
  intros H. right.
  destruct state.
  - destruct Hsh as [Hsh|[b Hsh]];
      [rewrite (bind_Undefined _ _ _ Hsh) in H; discriminate H|].
    erewrite bind_Done in H by exact Hsh.
    destruct Hget as [Hget|[c Hget]];
      [rewrite (bind_Undefined _ _ _ Hget) in H; discriminate H|].
    erewrite bind_Done in H by exact Hget.
    apply store_and_send_Done in H; [|assumption].
    destruct H as [Hd ->]. eauto.
  - destruct Hsh as [Hsh|[b Hsh]];
      [rewrite (bind_Undefined _ _ _ Hsh) in H; discriminate H|].
    erewrite bind_Done in H by exact Hsh.
    destruct Hget as [Hget|[c Hget]];
      [rewrite (bind_Undefined _ _ _ Hget) in H; discriminate H|].
    erewrite bind_Done in H by exact Hget.
    apply store_and_send_Done in H; [|assumption].
    destruct H as [Hd ->]. eauto.
Qed.

Lemma mirrored_paint n f s :
  0 <= n <= 8 -> mirrored n s -> mirrored n (paint f (Z.to_nat n) 0 s).
Proof.
  intros Hn [Hs Hc]. split; [apply sized_paint, Hs|].
  apply consistent_paint; [lia | lia | apply Hs | exact Hc].
Qed.

Lemma mirrored_stored n i v s :
  0 <= i < 8 -> mirrored n s -> mirrored n (stored i v s).
Proof.
  intros Hi [Hs Hc]. split; [apply sized_stored, Hs|].
  apply consistent_stored; [assumption | apply Hs | exact Hc].
Qed.

Lemma perform_mirrored int_bits n c s :
  0 <= n <= 8 -> mirrored n s ->
  (forall s', perform int_bits c s = Done tt s' -> mirrored n s') /\
  (call_defined int_bits c -> exists s', perform int_bits c s = Done tt s').
Proof.
  intros Hn Hm. pose proof Hm as [[Hnum Hlen] Hcons].
  assert (Hn' : 0 <= _numDigits s <= 8) by lia.
  destruct c; cbn [perform call_defined].
  - rewrite dispClear_paint by assumption. split; [|eauto].
    intros s' H. injection H as <-. rewrite Hnum. apply mirrored_paint; assumption.
  - rewrite dispAll_paint by assumption. split; [|eauto].
    intros s' H. injection H as <-. rewrite Hnum. apply mirrored_paint; assumption.
  - rewrite dispRefresh_paint by assumption. split; [|eauto].
    intros s' H. injection H as <-. rewrite Hnum. apply mirrored_paint; assumption.
  - unfold setIntensity. destruct (intensity <=? 15).
    + rewrite writeRegister_sent. split; [|eauto].
      intros s' H. injection H as <-. split; [exact (proj1 Hm)|].
      apply consistent_sent; [reflexivity | exact Hcons].
    + split; [|eexists; reflexivity].
      intros s' H. injection H as <-. exact Hm.
  - split.
    + intros s' H. apply setDigit_Done in H; [|assumption].
      destruct H as [->|[Hd ->]]; [exact Hm | apply mirrored_stored; assumption].
    + intros Hd. destruct (Z.le_gt_cases 2 (_numDigits s)).
      * rewrite setDigit_stores by (lia || assumption). eauto.
      * rewrite setDigit_blocked by lia. eauto.
  - rewrite setMatrix_paint by assumption. split; [|eauto].
    intros s' H. injection H as <-. rewrite Hnum. apply mirrored_paint; assumption.
  - rewrite setColumns_paint by assumption. split; [|eauto].
    intros s' H. injection H as <-. rewrite Hnum. apply mirrored_paint; assumption.
  - rewrite setRows_paint by assumption. split; [|eauto].
    intros s' H. injection H as <-. rewrite Hnum. apply mirrored_paint; assumption.
  - split.
    + intros s' H. apply setPixel_Done in H; [|assumption].
      destruct H as [->|[Hd [v ->]]];
        [exact Hm | apply mirrored_stored; assumption].
    + intros [Hd Hg]. destruct (Z.le_gt_cases 2 (_numDigits s)).
      * rewrite setPixel_stores by (lia || assumption). eauto.
      * rewrite setPixel_blocked by lia. eauto.
Qed.

Lemma perform_all_mirrored int_bits n calls : forall s,
  0 <= n <= 8 -> mirrored n s ->
  (forall s', perform_all int_bits calls s = Done tt s' -> mirrored n s') /\
  (Forall (call_defined int_bits) calls ->
   exists s', perform_all int_bits calls s = Done tt s').
Proof.
  induction calls as [|c calls IH]; intros s Hn Hm; cbn [perform_all].
  - split; [|eexists; reflexivity].
    intros s' H. injection H as <-. exact Hm.
  - destruct (perform_mirrored int_bits n c s Hn Hm) as [Hpart Htot]. split.
    + intros s' H. unfold bind in H.
      destruct (perform int_bits c s) as [[] s1| |] eqn:Hc; try discriminate H.
      destruct (IH s1 Hn (Hpart s1 eq_refl)) as [Hp _]. apply Hp, H.
    + intros Hall. apply Forall_cons in Hall as [Hc Hall].
      destruct (Htot Hc) as [s1 Hs1].
      erewrite bind_Done by exact Hs1.
      destruct (IH s1 Hn (Hpart s1 Hs1)) as [_ Ht]. apply Ht, Hall.
Qed.

(** * The claims *)

(** C1: construct a driver of 1 to 8 digits and call any public methods in
    any order.  Whenever the calls return, every digit register that has
    been written holds the value of the cache entry of its digit: the
    cache entry at [i] is the value of the most recent register write to
    register [i + 1].  The calls do return when every digit index handed
    to [setDigit] and [setPixel] is below 8 and every segment handed to
    [setPixel] is below the width of [int]. *)
Theorem cache_mirrors_digit_registers int_bits memory chipSelect n calls :
  length memory = 8%nat -> 1 <= n <= 8 ->
  (forall s, program int_bits memory chipSelect n calls = Done tt s ->
     forall i v, 0 <= i < 8 ->
       register_value (i + 1) (issued s) = Some v ->
       _displayCache s !! Z.to_nat i = Some v) /\
  (Forall (call_defined int_bits) calls ->
   exists s, program int_bits memory chipSelect n calls = Done tt s).
Proof.
  intros Hl Hn. unfold program.
  destruct (MAX72_ctor_consistent memory chipSelect n) as (s0 & -> & Hs0 & Hc0);
    [assumption | lia |].
  destruct (perform_all_mirrored int_bits n calls s0) as [Hpart Htot];
    [lia | split; assumption |].
  split; [|exact Htot].
  intros s Hs i v Hi Hv. destruct (Hpart s Hs) as [_ Hc]. apply Hc; assumption.
Qed.

Lemma cache_mirrors_digit_registers_witness :
  exists s,
    program 16 stale 10 3
      [call_setRows 0x81; call_setPixel 1 4 true; call_setIntensity 3;
       call_setDigit 2 0x18; call_dispRefresh; call_setPixel 0 0 false]
    = Done tt s /\
    forall i v, 0 <= i < 8 ->
      register_value (i + 1) (issued s) = Some v ->
      _displayCache s !! Z.to_nat i = Some v.
Proof.
  destruct (cache_mirrors_digit_registers 16 stale 10 3
      [call_setRows 0x81; call_setPixel 1 4 true; call_setIntensity 3;
       call_setDigit 2 0x18; call_dispRefresh; call_setPixel 0 0 false])
    as [Hpart Htot]; [reflexivity | lia |].
  destruct Htot as [s Hs].
  - repeat constructor; cbn; lia.
  - exists s. split; [exact Hs | apply Hpart, Hs].
Defined.

(** C2 (as the code has it): on a driver constructed with one digit, digit
    0 is in range, yet [setDigit(0, 0xff)] returns without touching the
    object: the cache entry stays 0 and the last register write is still
    the constructor's [(SHUTDOWN, 1)], not [(1, 0xff)].  The guard
    [0 <= digit < _numDigits] is [1 < _numDigits]. *)
Theorem setDigit_one_digit_driver :
  MAX72_ctor blank 10 1 = Done tt (driver 1) /\
  _numDigits (driver 1) = 1 /\
  setDigit 0 0xff (driver 1) = Done tt (driver 1) /\
  _displayCache (driver 1) !! 0%nat = Some 0 /\
  last (issued (driver 1)) = Some (SHUTDOWN, 1).
Proof. repeat apply conj; vm_compute; reflexivity. Qed.

(** From two digits on, [setDigit] on an index in range stores the value
    and its register write is the last one issued. *)
Lemma setDigit_in_range s i v :
  2 <= _numDigits s <= 8 -> length (_displayCache s) = 8%nat ->
  0 <= i < _numDigits s ->
  exists s', setDigit i v s = Done tt s' /\
             _displayCache s' !! Z.to_nat i = Some v /\
             last (issued s') = Some (i + 1, v).
Proof.
  intros Hn Hl Hi. exists (stored i v s). split; [|split].
  - apply setDigit_stores; [lia | lia | assumption].
  - cbn. apply list_lookup_insert_eq. lia.
  - rewrite stored_issued, u8_digit_register by lia. apply last_snoc.
Qed.

(** C3 (amended): on a driver of two to eight digits the guard
    [0 <= digit < _numDigits] is true for every index.  For every index
    below 8, in range or not, [setDigit] then sets the cache entry at that
    index and issues the register write [(index + 1, segments)]; for an
    index from 8 on it goes on to access [_displayCache] past its end.
    [setPixel] does not return early: for an index below 8 and a shift the
    [int] type allows, it issues a register write for that digit. *)
Theorem guard_passes_from_two_digits int_bits s d :
  2 <= _numDigits s <= 8 -> length (_displayCache s) = 8%nat ->
  digit_guard d s = Done true s /\
  (forall v, 0 <= d < 8 ->
     exists s', setDigit d v s = Done tt s' /\
                _displayCache s' !! Z.to_nat d = Some v /\
                issued s' = issued s ++ [(d + 1, v)]) /\
  (forall v, 8 <= d -> setDigit d v s = Undefined) /\
  (forall segment state, 0 <= d < 8 -> 0 <= segment < int_bits ->
     exists s' v, setPixel int_bits d segment state s = Done tt s' /\
                  issued s' = issued s ++ [(d + 1, v)]).
Proof.
  intros Hn Hl. split; [|split; [|split]].
  - apply digit_guard_passes. lia.
  - intros v Hd. exists (stored d v s). split; [|split].
    + apply setDigit_stores; [lia | assumption | assumption].
    + cbn. apply list_lookup_insert_eq. lia.
    + rewrite stored_issued, u8_digit_register by lia. reflexivity.
  - intros v Hd. apply setDigit_off_cache; [lia | assumption].
  - intros segment state Hd Hs. eexists _, _. split.
    + apply setPixel_stores; [lia | assumption | assumption | assumption].
    + rewrite stored_issued, u8_digit_register by lia. reflexivity.
Qed.

Lemma guard_passes_from_two_digits_witness :
  digit_guard 5 (driver 3) = Done true (driver 3) /\
  exists s', setDigit 5 9 (driver 3) = Done tt s' /\
             _displayCache s' !! 5%nat = Some 9 /\
             issued s' = issued (driver 3) ++ [(6, 9)].
Proof.
  destruct (guard_passes_from_two_digits 16 (driver 3) 5) as (Hg & Hd & _);
    [vm_compute; split; discriminate | reflexivity |].
  split; [exact Hg|]. apply (Hd 9). lia.
Defined.

(** C3 (as stated) fails: on a driver constructed with one digit the guard
    is false; [setDigit] and [setPixel] return at once and leave the object
    as it was. *)
Lemma guard_blocks_one_digit_driver :
  MAX72_ctor blank 10 1 = Done tt (driver 1) /\
  digit_guard 0 (driver 1) = Done false (driver 1) /\
  setDigit 0 0xff (driver 1) = Done tt (driver 1) /\
  setPixel 16 0 0 true (driver 1) = Done tt (driver 1) /\
  ~ (forall s d, 1 <= _numDigits s <= 8 -> is_u8 d ->
       digit_guard d s = Done true s).
Proof.
  assert (Hf : digit_guard 0 (driver 1) = Done false (driver 1))
    by (vm_compute; reflexivity).
  repeat apply conj; try (vm_compute; reflexivity).
  intros H. specialize (H (driver 1) 0).
  rewrite Hf in H. discriminate H.
  - vm_compute. split; discriminate.
  - unfold is_u8. lia.
Qed.

(** C4 (amended): for a digit below 8 and a segment the [int] type can
    shift by, [setPixel(d, s, true)] followed by [setPixel(d, s, false)]
    returns, and it restores the cache entry at [d] provided bit [s] of
    that entry was clear before the first call.  On a driver of two digits
    or more the entry ends as its former value with bit [s] cleared. *)
Theorem pixel_round_trip int_bits s d segment :
  16 <= int_bits -> cache_ok s -> 0 <= d < 8 -> 0 <= segment < int_bits ->
  exists s',
    (setPixel int_bits d segment true ;; setPixel int_bits d segment false) s
    = Done tt s' /\
    (Z.testbit (cached s d) segment = false ->
     _displayCache s' !! Z.to_nat d = _displayCache s !! Z.to_nat d) /\
    (2 <= _numDigits s ->
     _displayCache s' !! Z.to_nat d = Some (Z.clearbit (cached s d) segment)).
Proof.
  intros Hw Hok Hd Hg. pose proof Hok as [Hl _].
  destruct (Z.le_gt_cases 2 (_numDigits s)) as [Hn|Hn].
  - eexists. split; [|split].
    + erewrite bind_Done by (apply setPixel_stores; assumption).
      apply setPixel_stores;
        [exact Hn | assumption | assumption | rewrite stored_length; exact Hl].
    + intros Hbit. cbn [_displayCache stored].
      rewrite list_lookup_insert_eq by (rewrite length_insert; lia).
      rewrite cached_stored by lia.
      rewrite pixel_on_off by (lia || apply cached_is_u8, Hok).
      rewrite clearbit_clear by (lia || assumption).
      destruct (cache_slot d s Hd Hl) as [c Hc].
      rewrite (cached_lookup s d c Hc), Hc. reflexivity.
    + intros _. cbn [_displayCache stored].
      rewrite list_lookup_insert_eq by (rewrite length_insert; lia).
      rewrite cached_stored by lia.
      rewrite pixel_on_off by (lia || apply cached_is_u8, Hok). reflexivity.
  - exists s. split; [|split].
    + erewrite bind_Done by (apply setPixel_blocked; lia).
      apply setPixel_blocked; lia.
    + reflexivity.
    + lia.
Qed.

Lemma pixel_round_trip_witness :
  exists s',
    (setPixel 16 3 2 true ;; setPixel 16 3 2 false) (driver 8) = Done tt s' /\
    _displayCache s' !! 3%nat = _displayCache (driver 8) !! 3%nat.
Proof.
  destruct (pixel_round_trip 16 (driver 8) 3 2) as (s' & Hrun & Hclear & _).
  - lia.
  - split; [reflexivity|].
    replace (_displayCache (driver 8)) with blank by (vm_compute; reflexivity).
    repeat constructor; unfold is_u8; lia.
  - lia.
  - lia.
  - exists s'. split; [exact Hrun | apply Hclear; reflexivity].
Defined.

(** C4 (as stated) fails: with bit 0 of digit 0 lit, setting the pixel and
    clearing it again leaves the cache entry at 0, not at its former
    value 1. *)
Lemma lit_pixel_not_restored :
  let s := after (setDigit 0 1) (driver 8) in
  setDigit 0 1 (driver 8) = Done tt s /\
  _displayCache s !! 0%nat = Some 1 /\
  (exists s',
     (setPixel 16 0 0 true ;; setPixel 16 0 0 false) s = Done tt s' /\
     _displayCache s' !! 0%nat = Some 0) /\
  ~ (exists s',
       (setPixel 16 0 0 true ;; setPixel 16 0 0 false) s = Done tt s' /\
       _displayCache s' !! 0%nat = _displayCache s !! 0%nat).
Proof.
  cbv zeta. split; [vm_compute; reflexivity|]. split; [vm_compute; reflexivity|].
  split.
  - eexists. split; vm_compute; reflexivity.
  - intros (s' & Hrun & Hcache).
    vm_compute in Hrun. injection Hrun as <-.
    vm_compute in Hcache. discriminate Hcache.
Qed.

(** C5: on an eight-digit driver, for all masks, [setMatrix] leaves in the
    cache entry of every digit [i] the segment mask if bit [i] of the digit
    mask is set and 0 otherwise, and issues one register write per digit,
    changed or not, digit 0 first. *)
Theorem setMatrix_eight_digits s digits segments :
  _numDigits s = 8 -> length (_displayCache s) = 8%nat ->
  exists s',
    setMatrix digits segments s = Done tt s' /\
    (forall i, 0 <= i < 8 ->
       _displayCache s' !! Z.to_nat i
       = Some (if Z.testbit digits i then segments else 0)) /\
    issued s' = issued s ++
      map (fun i => (i + 1, if Z.testbit digits i then segments else 0))
          (seqZ 0 8).
Proof.
  intros Hn Hl. eexists. split; [|split].
  - apply setMatrix_paint; [lia | assumption].
  - intros i Hi. rewrite Hn. apply paint_cache_inside; lia.
  - rewrite paint_issued, Hn, digit_registers by lia. reflexivity.
Qed.

Lemma setMatrix_eight_digits_witness :
  exists s',
    setMatrix 0x0f 0xaa (driver 8) = Done tt s' /\
    (forall i, 0 <= i < 8 ->
       _displayCache s' !! Z.to_nat i
       = Some (if Z.testbit 0x0f i then 0xaa else 0)) /\
    issued s' = issued (driver 8) ++
      map (fun i => (i + 1, if Z.testbit 0x0f i then 0xaa else 0))
          (seqZ 0 8).
Proof. apply setMatrix_eight_digits; reflexivity. Defined.

(** C6: an intensity above 15 makes [setIntensity] return without a
    register write, so the intensity register keeps its value; an
    intensity from 0 to 15 is written to the intensity register. *)
Theorem setIntensity_range s intensity :
  (15 < intensity ->
     setIntensity intensity s = Done tt s) /\
  (0 <= intensity <= 15 ->
     exists s', setIntensity intensity s = Done tt s' /\
                _displayCache s' = _displayCache s /\
                issued s' = issued s ++ [(INTENSITY, intensity)] /\
                register_value INTENSITY (issued s') = Some intensity).
Proof.
  split; intros H; unfold setIntensity.
  - rewrite (proj2 (Z.leb_gt intensity 15)) by lia. reflexivity.
  - rewrite (proj2 (Z.leb_le intensity 15)) by lia.
    exists (sent INTENSITY intensity s). split; [|split; [|split]].
    + apply writeRegister_sent.
    + reflexivity.
    + apply sent_issued.
    + rewrite sent_issued, register_value_snoc, Z.eqb_refl. reflexivity.
Qed.

Lemma setIntensity_range_witness :
  setIntensity 16 (driver 8) = Done tt (driver 8) /\
  register_value INTENSITY (issued (driver 8)) = Some 15 /\
  exists s', setIntensity 7 (driver 8) = Done tt s' /\
             register_value INTENSITY (issued s') = Some 7.
Proof.
  split; [apply (setIntensity_range (driver 8) 16); lia|].
  split; [reflexivity|].
  destruct (proj2 (setIntensity_range (driver 8) 7)) as (s' & H1 & _ & _ & H2);
    [lia|].
  exists s'. split; assumption.
Defined.

(** C7: [setRows(segments)] and [setMatrix(0xFF, segments)] end in the same
    object: same cache, same bus traffic, hence the same register
    writes. *)
Theorem setRows_is_setMatrix_all_digits s segments :
  0 <= _numDigits s <= 8 -> length (_displayCache s) = 8%nat ->
  exists s',
    setRows segments s = Done tt s' /\
    setMatrix 0xFF segments s = Done tt s' /\
    issued s' = issued s ++
      map (fun i => (i + 1, segments)) (seqZ 0 (_numDigits s)).
Proof.
  intros Hn Hl. eexists. split; [|split].
  - apply setRows_paint; assumption.
  - rewrite setMatrix_paint by assumption. f_equal.
    apply paint_ext. intros j Hj. unfold matrix_value, bit_set.
    replace (Z.testbit 255 j) with true; [reflexivity|].
    assert (Hc : j = 0 \/ j = 1 \/ j = 2 \/ j = 3 \/
                 j = 4 \/ j = 5 \/ j = 6 \/ j = 7) by lia.
    repeat (destruct Hc as [->|Hc]; [reflexivity|]). subst j. reflexivity.
  - rewrite paint_issued, digit_registers, Z2Nat.id by lia. reflexivity.
Qed.

Lemma setRows_is_setMatrix_all_digits_witness :
  exists s',
    setRows 1 (driver 8) = Done tt s' /\
    setMatrix 0xFF 1 (driver 8) = Done tt s' /\
    issued s' = issued (driver 8) ++
      map (fun i => (i + 1, 1)) (seqZ 0 (_numDigits (driver 8))).
Proof.
  apply setRows_is_setMatrix_all_digits; [vm_compute; split; discriminate|].
  reflexivity.
Defined.

(** C8 (amended): on a driver of 1 to 8 digits [dispClear] sets the cache
    entries of the digits below the digit count to 0 and leaves the other
    entries as they were; it issues one register write of value 0 for each
    digit below the digit count, digit 0 first, and no other. *)
Theorem dispClear_scanned_digits s :
  1 <= _numDigits s <= 8 -> length (_displayCache s) = 8%nat ->
  exists s',
    dispClear s = Done tt s' /\
    (forall i, 0 <= i < _numDigits s ->
       _displayCache s' !! Z.to_nat i = Some 0) /\
    (forall i, _numDigits s <= i ->
       _displayCache s' !! Z.to_nat i = _displayCache s !! Z.to_nat i) /\
    issued s' = issued s ++
      map (fun i => (i + 1, 0)) (seqZ 0 (_numDigits s)).
Proof.
  intros Hn Hl. eexists. split; [|split; [|split]].
  - apply dispClear_paint; [lia | assumption].
  - intros i Hi. apply (paint_cache_inside (fun _ => 0)); lia.
  - intros i Hi. apply paint_cache_outside; lia.
  - rewrite paint_issued, digit_registers, Z2Nat.id by lia. reflexivity.
Qed.

Lemma dispClear_scanned_digits_witness :
  exists s',
    dispClear (driver 2) = Done tt s' /\
    (forall i, 0 <= i < _numDigits (driver 2) ->
       _displayCache s' !! Z.to_nat i = Some 0) /\
    (forall i, _numDigits (driver 2) <= i ->
       _displayCache s' !! Z.to_nat i
       = _displayCache (driver 2) !! Z.to_nat i) /\
    issued s' = issued (driver 2) ++
      map (fun i => (i + 1, 0)) (seqZ 0 (_numDigits (driver 2))).
Proof.
  apply dispClear_scanned_digits; [vm_compute; split; discriminate|].
  reflexivity.
Defined.

(** C8 (as stated) fails: on a driver constructed with two digits,
    [dispClear] clears the cache entries 0 and 1 only and issues writes for
    the digit registers 1 and 2 only; the entries from index 2 on keep what
    they held and no write ever reaches digit register 3. *)
Lemma dispClear_skips_unscanned_digits :
  let s := constructed stale 10 2 in
  MAX72_ctor stale 10 2 = Done tt s /\
  _numDigits s = 2 /\
  (exists s',
     dispClear s = Done tt s' /\
     _displayCache s' = [0; 0; 0xaa; 0xaa; 0xaa; 0xaa; 0xaa; 0xaa] /\
     issued s' = issued s ++ [(1, 0); (2, 0)]) /\
  ~ (exists s',
       dispClear s = Done tt s' /\
       (forall i, 0 <= i < 8 -> _displayCache s' !! Z.to_nat i = Some 0) /\
       (forall i, 0 <= i < 8 -> In (i + 1, 0) (issued s'))).
Proof.
  cbv zeta. split; [vm_compute; reflexivity|]. split; [reflexivity|].
  assert (Hs' : dispClear (constructed stale 10 2)
                = Done tt (stored 1 0 (stored 0 0 (constructed stale 10 2))))
    by (vm_compute; reflexivity).
  split.
  - eexists. split; [exact Hs'|]. split; vm_compute; reflexivity.
  - intros (s' & Hrun & Hcache & Hwrites).
    rewrite Hs' in Hrun. injection Hrun as <-.
    specialize (Hwrites 2 ltac:(lia)). vm_compute in Hwrites.
    repeat (destruct Hwrites as [Hw|Hwrites]; [discriminate Hw|]).
    exact Hwrites.
Qed.

(** C9: [dispRefresh] leaves the cache as it is and issues exactly one
    register write per digit below the digit count, digit 0 first, each
    with the cache entry of its digit; after [dispClear] these are
    [_numDigits] writes of value 0. *)
Theorem dispRefresh_resends_cache s :
  0 <= _numDigits s <= 8 -> length (_displayCache s) = 8%nat ->
  (exists s',
     dispRefresh s = Done tt s' /\
     _displayCache s' = _displayCache s /\
     issued s' = issued s ++
       map (fun i => (i + 1, cached s i)) (seqZ 0 (_numDigits s)) /\
     length (map (fun i => (i + 1, cached s i)) (seqZ 0 (_numDigits s)))
     = Z.to_nat (_numDigits s)) /\
  (exists s1 s2,
     dispClear s = Done tt s1 /\
     dispRefresh s1 = Done tt s2 /\
     issued s2 = issued s1 ++
       map (fun i => (i + 1, 0)) (seqZ 0 (_numDigits s))).
Proof.
  intros Hn Hl. split.
  - eexists. split; [|split; [|split]].
    + apply dispRefresh_paint; assumption.
    + apply paint_cached_cache. reflexivity.
    + rewrite paint_issued, digit_registers, Z2Nat.id by lia. reflexivity.
    + rewrite length_map, length_seqZ. reflexivity.
  - eexists _, _. split; [|split].
    + apply dispClear_paint; assumption.
    + apply dispRefresh_paint.
      * rewrite paint_numDigits. assumption.
      * rewrite paint_length. assumption.
    + rewrite paint_issued, paint_numDigits, digit_registers, Z2Nat.id by lia.
      f_equal. apply map_ext_in. intros i Hi.
      apply list_elem_of_In, elem_of_seqZ in Hi. f_equal.
      apply cached_lookup, (paint_cache_inside (fun _ => 0)); lia.
Qed.

Lemma dispRefresh_resends_cache_witness :
  exists s1 s2,
    dispClear (driver 3) = Done tt s1 /\
    dispRefresh s1 = Done tt s2 /\
    issued s2 = issued s1 ++ [(1, 0); (2, 0); (3, 0)].
Proof.
  apply (dispRefresh_resends_cache (driver 3));
    [vm_compute; split; discriminate | reflexivity].
Defined.

(** C10 (amended): for a digit below 8 and a segment from 8 up to, but not
    including, the width of [int] (8 to 31 where [int] has 32 bits, 8 to 15
    where it has 16), [setPixel] returns with every cache entry unchanged,
    whatever the state flag; on a driver of two digits or more it still
    issues one register write, of the unchanged cache entry, to the
    register of that digit. *)
Theorem pixel_outside_byte int_bits s d segment state :
  cache_ok s -> 0 <= d < 8 -> 8 <= segment < int_bits ->
  exists s',
    setPixel int_bits d segment state s = Done tt s' /\
    _displayCache s' = _displayCache s /\
    (2 <= _numDigits s -> issued s' = issued s ++ [(d + 1, cached s d)]).
Proof.
  intros Hok Hd Hg. pose proof Hok as [Hl _].
  destruct (Z.le_gt_cases 2 (_numDigits s)) as [Hn|Hn].
  - eexists. split; [|split].
    + apply setPixel_stores; [assumption | assumption | lia | assumption].
    + cbn [_displayCache stored].
      destruct (cache_slot d s Hd Hl) as [c Hc].
      apply list_insert_id. rewrite Hc. f_equal.
      rewrite (cached_lookup s d c Hc).
      assert (is_u8 c) by (rewrite <- (cached_lookup s d c Hc);
                           apply cached_is_u8, Hok).
      destruct state; [rewrite pixel_on_high | rewrite pixel_off_high];
        solve [reflexivity | lia | assumption].
    + intros _. rewrite stored_issued, u8_digit_register by lia.
      pose proof (cached_is_u8 s d Hok).
      destruct state; [rewrite pixel_on_high | rewrite pixel_off_high];
        solve [reflexivity | lia | assumption].
  - exists s. split; [|split].
    + apply setPixel_blocked; lia.
    + reflexivity.
    + lia.
Qed.

Lemma pixel_outside_byte_witness :
  (exists s',
     setPixel 32 3 31 false (after (setRows 0x81) (driver 8)) = Done tt s' /\
     _displayCache s' = _displayCache (after (setRows 0x81) (driver 8)) /\
     issued s' = issued (after (setRows 0x81) (driver 8)) ++ [(4, 0x81)]) /\
  (exists s',
     setPixel 16 3 15 true (after (setRows 0x81) (driver 8)) = Done tt s' /\
     _displayCache s' = _displayCache (after (setRows 0x81) (driver 8)) /\
     issued s' = issued (after (setRows 0x81) (driver 8)) ++ [(4, 0x81)]).
Proof.
  assert (Hok : cache_ok (after (setRows 0x81) (driver 8))).
  { split; [reflexivity|].
    replace (_displayCache (after (setRows 0x81) (driver 8)))
      with [0x81; 0x81; 0x81; 0x81; 0x81; 0x81; 0x81; 0x81]
      by (vm_compute; reflexivity).
    repeat constructor; unfold is_u8; lia. }
  assert (Hn : 2 <= _numDigits (after (setRows 0x81) (driver 8)))
    by (vm_compute; discriminate).
  split.
  - destruct (pixel_outside_byte 32 (after (setRows 0x81) (driver 8)) 3 31 false)
      as (s' & Hrun & Hcache & Hsend); [exact Hok | lia | lia |].
    exists s'. split; [exact Hrun|]. split; [exact Hcache | apply Hsend, Hn].
  - destruct (pixel_outside_byte 16 (after (setRows 0x81) (driver 8)) 3 15 true)
      as (s' & Hrun & Hcache & Hsend); [exact Hok | lia | lia |].
    exists s'. split; [exact Hrun|]. split; [exact Hcache | apply Hsend, Hn].
Defined.

(** The bound on the segment is the width of [int]: with a 16-bit [int]
    the shift by 16 is undefined. *)
Lemma pixel_shift_past_int_width :
  setPixel 16 0 15 true (driver 8) <> Undefined /\
  setPixel 16 0 16 true (driver 8) = Undefined.
Proof. split; [vm_compute; discriminate | vm_compute; reflexivity]. Qed.

(** C10 (as stated) fails: on a driver constructed with one digit,
    [setPixel(0, 8, true)] returns before the register write. *)
Lemma one_digit_driver_skips_pixel_write :
  MAX72_ctor blank 10 1 = Done tt (driver 1) /\
  setPixel 32 0 8 true (driver 1) = Done tt (driver 1) /\
  ~ (exists s' v,
       setPixel 32 0 8 true (driver 1) = Done tt s' /\
       issued s' = issued (driver 1) ++ [(1, v)]).
Proof.
  set (s1 := driver 1).
  assert (Hrun : setPixel 32 0 8 true s1 = Done tt s1)
    by (vm_compute; reflexivity).
  split; [vm_compute; reflexivity|]. split; [exact Hrun|].
  clearbody s1.
  intros (s' & v & Hs' & Hsend). rewrite Hrun in Hs'. injection Hs' as <-.
  apply (f_equal (@length _)) in Hsend. rewrite length_app in Hsend.
  cbn [length] in Hsend. lia.
Qed.

(** * Further properties of the class *)

(** ** Loops that run past the cache *)

Section LoopFault.

Context {A : Type}.
Variable idx : A -> Z.
Variable at_digit : Z -> A.
Variable incr : A -> A.
Variable body : A -> M unit.
Variable f : Z -> Z.
Variable Inv : MAX72 -> Prop.
Variable n : Z.
Variable m : Z.

Hypothesis fault_below : m < n.
Hypothesis idx_at : forall j, 0 <= j <= m -> idx (at_digit j) = j.
Hypothesis incr_at : forall j, 0 <= j < m -> incr (at_digit j) = at_digit (j + 1).
Hypothesis Inv_numDigits : forall s, Inv s -> _numDigits s = n.
Hypothesis body_stores : forall j s, 0 <= j < m -> Inv s ->
  body (at_digit j) s = Done tt (stored j (f j) s) /\ Inv (stored j (f j) s).
Hypothesis body_faults : forall s, Inv s -> body (at_digit m) s = Undefined.

Lemma for_loop_fault k : forall fuel i s,
  0 <= i -> i + Z.of_nat k = m -> (k < fuel)%nat -> Inv s ->
  for_loop fuel (fun a => below_numDigits (idx a)) incr body (at_digit i) s
  = Undefined.
Proof.
  induction k as [|k IH]; intros fuel i s Hi Hk Hfuel HI;
    (destruct fuel as [|fuel]; [lia|]); cbn [for_loop].
  - erewrite bind_Done by apply below_numDigits_Done.
    rewrite idx_at, (Inv_numDigits s HI) by lia.
    rewrite (proj2 (Z.ltb_lt i n)) by lia.
    apply bind_Undefined. replace i with m by lia. apply body_faults, HI.
  - erewrite bind_Done by apply below_numDigits_Done.
    rewrite idx_at, (Inv_numDigits s HI) by lia.
    rewrite (proj2 (Z.ltb_lt i n)) by lia.
    destruct (body_stores i s) as [Hb HI']; [lia | assumption |].
    erewrite bind_Done by exact Hb. rewrite incr_at by lia.
    apply IH; [lia | lia | lia | assumption].
Qed.

End LoopFault.

Lemma cache_get_past i s : 8 <= i -> cache_get i s = Undefined.
Proof. intros Hi. unfold cache_get. rewrite off_cache; auto. Qed.

Lemma counting_loop_past (f : Z -> Z) s :
  8 < _numDigits s -> length (_displayCache s) = 8%nat ->
  for_loop FUEL below_numDigits (fun i => u8 (i + 1))
    (fun i =>
       cache_set i (f i) ;;
       v <- cache_get i ;;
       writeRegister (u8 (DIGITREGISTER i)) v) 0 s
  = Undefined.
Proof.
  intros Hn Hl.
  refine (for_loop_fault (fun i : Z => i) (fun i : Z => i) _ _ f
            (sized (_numDigits s)) (_numDigits s) 8 _ _ _ _ _ _
            8%nat FUEL 0 s _ _ _ _).
  - lia.
  - reflexivity.
  - intros j Hj. apply u8_small. lia.
  - intros s' [H _]. exact H.
  - intros j s' Hj Hs'. split; [|apply sized_stored, Hs'].
    apply store_and_send; [lia | apply Hs'].
  - intros s' _. apply store_and_send_off. lia.
  - lia.
  - lia.
  - unfold FUEL. lia.
  - split; [reflexivity | exact Hl].
Qed.

Lemma masked_loop_past digits on s :
  8 < _numDigits s -> length (_displayCache s) = 8%nat ->
  for_loop FUEL (fun ic => below_numDigits (fst ic))
    (fun ic => (u8 (fst ic + 1), u8 (Z.shiftl (snd ic) 1)))
    (fun ic =>
       let i := fst ic in
       let colmask := snd ic in
       if negb (Z.land colmask digits =? 0) then
         cache_set i on ;;
         v <- cache_get i ;;
         writeRegister (u8 (DIGITREGISTER i)) v
       else
         cache_set i 0x0 ;;
         v <- cache_get i ;;
         writeRegister (u8 (DIGITREGISTER i)) v)
    (0, 1) s
  = Undefined.
Proof.
  intros Hn Hl.
  refine (for_loop_fault fst (fun j : Z => (j, u8 (2 ^ j))) _ _
            (matrix_value digits on)
            (sized (_numDigits s)) (_numDigits s) 8 _ _ _ _ _ _
            8%nat FUEL 0 s _ _ _ _).
  - lia.
  - reflexivity.
  - intros j Hj. cbn [fst snd].
    rewrite colmask_next, (u8_small (j + 1)) by lia. reflexivity.
  - intros s' [H _]. exact H.
  - intros j s' Hj Hs'. split; [|apply sized_stored, Hs'].
    cbn [fst snd]. rewrite colmask_small, colmask_test by lia.
    unfold matrix_value.
    destruct (bit_set digits j); apply store_and_send; solve [lia | apply Hs'].
  - intros s' _. cbn [fst snd].
    destruct (negb (Z.land (u8 (2 ^ 8)) digits =? 0));
      apply store_and_send_off; lia.
  - lia.
  - lia.
  - unfold FUEL. lia.
  - split; [reflexivity | exact Hl].
Qed.

Lemma dispRefresh_past s :
  8 < _numDigits s -> length (_displayCache s) = 8%nat ->
  dispRefresh s = Undefined.
Proof.
  intros Hn Hl.
  refine (for_loop_fault (fun i : Z => i) (fun i : Z => i) _ _
            (cached s)
            (fun s' => _numDigits s' = _numDigits s /\
                       _displayCache s' = _displayCache s)
            (_numDigits s) 8 _ _ _ _ _ _
            8%nat FUEL 0 s _ _ _ _).
  - lia.
  - reflexivity.
  - intros j Hj. apply u8_small. lia.
  - intros s' [H _]. exact H.
  - intros j s' Hj [Hn' Hc'].
    assert (Hj' : _displayCache s' !! Z.to_nat j = Some (cached s j)).
    { rewrite Hc'. unfold cached.
      destruct (cache_slot j s) as [c ->]; [lia | exact Hl | reflexivity]. }
    split.
    + apply send_cached; [lia | exact Hj'].
    + split; [exact Hn'|]. cbn. rewrite list_insert_id; assumption.
  - intros s' _. apply bind_Undefined, cache_get_past. lia.
  - lia.
  - lia.
  - unfold FUEL. lia.
  - split; reflexivity.
Qed.

(** Every loop method runs past [_displayCache] when the digit count is
    above 8: the round for digit 8 stores (or, for [dispRefresh], reads)
    outside the array. *)
Theorem loop_methods_overrun s :
  8 < _numDigits s -> length (_displayCache s) = 8%nat ->
  dispClear s = Undefined /\
  dispAll s = Undefined /\
  dispRefresh s = Undefined /\
  (forall digits segments, setMatrix digits segments s = Undefined) /\
  (forall digits, setColumns digits s = Undefined) /\
  (forall segments, setRows segments s = Undefined).
Proof.
  intros Hn Hl. repeat apply conj.
  - apply (counting_loop_past (fun _ => 0)); assumption.
  - apply (counting_loop_past (fun _ => 255)); assumption.
  - apply dispRefresh_past; assumption.
  - intros digits segments. apply masked_loop_past; assumption.
  - intros digits. apply masked_loop_past; assumption.
  - intros segments. apply (counting_loop_past (fun _ => segments)); assumption.
Qed.

Lemma loop_methods_overrun_witness :
  dispClear (mkMAX72 10 9 blank []) = Undefined /\
  dispRefresh (mkMAX72 10 9 blank []) = Undefined.
Proof.
  destruct (loop_methods_overrun (mkMAX72 10 9 blank []))
    as (Hc & _ & Hr & _); [cbn; lia | reflexivity |].
  split; assumption.
Defined.

(** The constructor does not check the digit count.  Given more than 8
    digits its behaviour is undefined, and so is that of [dispClear], which
    it calls, on any object with that digit count: the loop reaches index
    8 of the 8-entry [_displayCache]. *)
Theorem constructor_overrun memory chipSelect n :
  length memory = 8%nat -> 8 < n ->
  MAX72_ctor memory chipSelect n = Undefined /\
  forall s, _numDigits s = n -> length (_displayCache s) = 8%nat ->
    dispClear s = Undefined.
Proof.
  intros Hl Hn. split.
  - unfold MAX72_ctor.
    do 8 (erewrite bind_Done by reflexivity). cbn [app _chipSelect].
    erewrite bind_Done by apply writeRegister_sent.
    apply bind_Undefined.
    apply (counting_loop_past (fun _ => 0)); [cbn; lia | exact Hl].
  - intros s Hs Hls.
    apply (counting_loop_past (fun _ => 0)); [lia | exact Hls].
Qed.

Lemma constructor_overrun_witness :
  MAX72_ctor blank 10 9 = Undefined /\
  dispClear (mkMAX72 10 9 blank []) = Undefined.
Proof.
  destruct (constructor_overrun blank 10 9) as [Hc Hd]; [reflexivity | lia |].
  split; [exact Hc | apply Hd; reflexivity].
Defined.

(** ** The constructor *)

Lemma issued_setup cs n memory : issued (mkMAX72 cs n memory (setup cs)) = [].
Proof.
  unfold issued, registerWrites, setup. cbn. rewrite Z.eqb_refl. reflexivity.
Qed.

Lemma paint_keeps_chipSelect f k : forall i s,
  _chipSelect (paint f k i s) = _chipSelect s.
Proof. induction k as [|k IH]; intros i s; cbn; [|rewrite IH]; reflexivity. Qed.

(** The constructor, for 1 to 8 digits, returns an object with the chip
    select and the digit count it was given; the cache entries below the
    digit count are 0 and the others are what the storage held; and the
    register writes it issued are, in this order: shutdown, a 0 for each
    digit register up to the digit count, the scan limit (digit count
    minus one), no decoding, full intensity, and normal operation. *)
Theorem constructor_sequence memory chipSelect n :
  length memory = 8%nat -> 1 <= n <= 8 ->
  exists s,
    MAX72_ctor memory chipSelect n = Done tt s /\
    _chipSelect s = chipSelect /\
    _numDigits s = n /\
    (forall i, 0 <= i < n -> _displayCache s !! Z.to_nat i = Some 0) /\
    (forall i, n <= i -> _displayCache s !! Z.to_nat i = memory !! Z.to_nat i) /\
    issued s =
      (SHUTDOWN, 0) :: map (fun i => (i + 1, 0)) (seqZ 0 n) ++
      [(SCANLIMIT, n - 1); (DECODEMODE, 0); (INTENSITY, 0xf); (SHUTDOWN, 1)].
Proof.
  intros Hl Hn. eexists. split; [apply MAX72_ctor_Done; [assumption | lia]|].
  split; [cbn; apply paint_keeps_chipSelect|].
  split; [cbn; apply paint_numDigits|].
  split; [|split].
  - intros i Hi. cbn [_displayCache sent].
    apply (paint_cache_inside (fun _ => 0)); cbn; lia.
  - intros i Hi. cbn [_displayCache sent].
    rewrite paint_cache_outside by lia. reflexivity.
  - rewrite !sent_issued, paint_issued, sent_issued.
    change (issued _) with (issued (mkMAX72 chipSelect n memory (setup chipSelect))).
    rewrite issued_setup, digit_registers, Z2Nat.id, (u8_small (n - 1)) by lia.
    cbn [app]. rewrite <- !app_assoc. reflexivity.
Qed.

Lemma constructor_sequence_witness :
  exists s,
    MAX72_ctor stale 10 3 = Done tt s /\
    _displayCache s !! 0%nat = Some 0 /\
    _displayCache s !! 5%nat = Some 0xaa /\
    issued s = [(12, 0); (1, 0); (2, 0); (3, 0);
                (11, 2); (9, 0); (10, 15); (12, 1)].
Proof.
  destruct (constructor_sequence stale 10 3)
    as (s & Hs & _ & _ & Hlow & Hhigh & Hw); [reflexivity | lia |].
  exists s. split; [exact Hs|]. split; [apply (Hlow 0); lia|].
  split; [apply (Hhigh 5); lia | exact Hw].
Defined.

(** ** The full-frame methods *)

Lemma perform_full_frame int_bits c f s :
  frame_value c = Some f ->
  0 <= _numDigits s <= 8 -> length (_displayCache s) = 8%nat ->
  perform int_bits c s = Done tt (paint f (Z.to_nat (_numDigits s)) 0 s).
Proof.
  intros Hf Hn Hl.
  destruct c; cbn [frame_value] in Hf; try discriminate Hf;
    injection Hf as <-; cbn [perform].
  - apply dispClear_paint; assumption.
  - apply dispAll_paint; assumption.
  - apply setMatrix_paint; assumption.
  - apply setColumns_paint; assumption.
  - apply setRows_paint; assumption.
Qed.

(** [dispAll], on a driver of at most 8 digits, sets the cache entries
    below the digit count to 0xff, leaves the others, and issues one write
    of 0xff per digit register up to the digit count, in ascending
    order. *)
Theorem dispAll_scanned_digits s :
  0 <= _numDigits s <= 8 -> length (_displayCache s) = 8%nat ->
  exists s',
    dispAll s = Done tt s' /\
    (forall i, 0 <= i < _numDigits s ->
       _displayCache s' !! Z.to_nat i = Some 0xff) /\
    (forall i, _numDigits s <= i ->
       _displayCache s' !! Z.to_nat i = _displayCache s !! Z.to_nat i) /\
    issued s' = issued s ++
      map (fun i => (i + 1, 0xff)) (seqZ 0 (_numDigits s)).
Proof.
  intros Hn Hl. eexists. split; [|split; [|split]].
  - apply dispAll_paint; assumption.
  - intros i Hi. apply (paint_cache_inside (fun _ => 255)); lia.
  - intros i Hi. apply paint_cache_outside; lia.
  - rewrite paint_issued, digit_registers, Z2Nat.id by lia. reflexivity.
Qed.

Lemma dispAll_scanned_digits_witness :
  exists s',
    dispAll (driver 3) = Done tt s' /\
    issued s' = issued (driver 3) ++ [(1, 0xff); (2, 0xff); (3, 0xff)].
Proof.
  destruct (dispAll_scanned_digits (driver 3)) as (s' & Hs' & _ & _ & Hw);
    [vm_compute; split; discriminate | reflexivity |].
  exists s'. split; [exact Hs' | exact Hw].
Defined.

(** [setColumns], on a driver of at most 8 digits, sets the cache entry of
    every digit [i] below the digit count to 0xff if bit [i] of the mask is
    set and to 0 otherwise, leaves the other entries, and issues one write
    per digit register up to the digit count, in ascending order. *)
Theorem setColumns_scanned_digits s digits :
  0 <= _numDigits s <= 8 -> length (_displayCache s) = 8%nat ->
  exists s',
    setColumns digits s = Done tt s' /\
    (forall i, 0 <= i < _numDigits s ->
       _displayCache s' !! Z.to_nat i
       = Some (if Z.testbit digits i then 0xff else 0)) /\
    (forall i, _numDigits s <= i ->
       _displayCache s' !! Z.to_nat i = _displayCache s !! Z.to_nat i) /\
    issued s' = issued s ++
      map (fun i => (i + 1, if Z.testbit digits i then 0xff else 0))
          (seqZ 0 (_numDigits s)).
Proof.
  intros Hn Hl. eexists. split; [|split; [|split]].
  - apply setColumns_paint; assumption.
  - intros i Hi. apply (paint_cache_inside (matrix_value digits 255)); lia.
  - intros i Hi. apply paint_cache_outside; lia.
  - rewrite paint_issued, digit_registers, Z2Nat.id by lia. reflexivity.
Qed.

Lemma setColumns_scanned_digits_witness :
  exists s',
    setColumns 0x05 (driver 4) = Done tt s' /\
    issued s' = issued (driver 4) ++ [(1, 0xff); (2, 0); (3, 0xff); (4, 0)].
Proof.
  destruct (setColumns_scanned_digits (driver 4) 0x05) as (s' & Hs' & _ & _ & Hw);
    [vm_compute; split; discriminate | reflexivity |].
  exists s'. split; [exact Hs' | exact Hw].
Defined.

Lemma testbit_255 j : 0 <= j < 8 -> Z.testbit 255 j = true.
Proof.
  intros Hj.
  assert (Hc : j = 0 \/ j = 1 \/ j = 2 \/ j = 3 \/
               j = 4 \/ j = 5 \/ j = 6 \/ j = 7) by lia.
  repeat (destruct Hc as [->|Hc]; [reflexivity|]). subst j. reflexivity.
Qed.

(** The masked methods with trivial masks are the plain ones: on a driver
    of at most 8 digits [setMatrix] with segment mask 0 (whatever the digit
    mask) and [setColumns(0)] end in the same object as [dispClear], and
    [setMatrix(0xff, 0xff)] and [setColumns(0xff)] in the same object as
    [dispAll]: same cache, same bus traffic. *)
Theorem trivial_masks s digits :
  0 <= _numDigits s <= 8 -> length (_displayCache s) = 8%nat ->
  exists s0 s1,
    dispClear s = Done tt s0 /\
    setMatrix digits 0 s = Done tt s0 /\
    setColumns 0 s = Done tt s0 /\
    dispAll s = Done tt s1 /\
    setMatrix 0xff 0xff s = Done tt s1 /\
    setColumns 0xff s = Done tt s1.
Proof.
  intros Hn Hl. eexists _, _. repeat apply conj.
  - apply dispClear_paint; assumption.
  - rewrite setMatrix_paint by assumption. f_equal. apply paint_ext.
    intros j _. unfold matrix_value. destruct (bit_set digits j); reflexivity.
  - rewrite setColumns_paint by assumption. f_equal. apply paint_ext.
    intros j _. unfold matrix_value, bit_set. rewrite Z.bits_0. reflexivity.
  - apply dispAll_paint; assumption.
  - rewrite setMatrix_paint by assumption. f_equal. apply paint_ext.
    intros j Hj. unfold matrix_value, bit_set. rewrite testbit_255 by lia.
    reflexivity.
  - rewrite setColumns_paint by assumption. f_equal. apply paint_ext.
    intros j Hj. unfold matrix_value, bit_set. rewrite testbit_255 by lia.
    reflexivity.
Qed.

Lemma trivial_masks_witness :
  exists s0,
    dispClear (driver 5) = Done tt s0 /\ setMatrix 0x1f 0 (driver 5) = Done tt s0.
Proof.
  destruct (trivial_masks (driver 5) 0x1f) as (s0 & _ & H0 & H1 & _);
    [vm_compute; split; discriminate | reflexivity |].
  exists s0. split; assumption.
Defined.

(** The digit mask of [setMatrix] and [setColumns] is read up to the digit
    count only: two masks that agree on the bits below [_numDigits] give
    the same object. *)
Theorem mask_bits_above_digit_count s digits digits' segments :
  0 <= _numDigits s <= 8 -> length (_displayCache s) = 8%nat ->
  (forall i, 0 <= i < _numDigits s ->
     Z.testbit digits i = Z.testbit digits' i) ->
  setMatrix digits segments s = setMatrix digits' segments s /\
  setColumns digits s = setColumns digits' s /\
  exists s', setMatrix digits segments s = Done tt s'.
Proof.
  intros Hn Hl Hbits. rewrite !setMatrix_paint, !setColumns_paint by assumption.
  split; [|split; [|eauto]]; f_equal; apply paint_ext; intros j Hj;
    unfold matrix_value, bit_set; rewrite Hbits by lia; reflexivity.
Qed.

Lemma mask_bits_above_digit_count_witness :
  setMatrix 0xf5 0x3c (driver 4) = setMatrix 0x05 0x3c (driver 4).
Proof.
  apply (mask_bits_above_digit_count (driver 4) 0xf5 0x05 0x3c).
  - vm_compute. split; discriminate.
  - reflexivity.
  - intros i Hi.
    assert (Hn : _numDigits (driver 4) = 4) by reflexivity. rewrite Hn in Hi.
    assert (Hc : i = 0 \/ i = 1 \/ i = 2 \/ i = 3) by lia.
    repeat (destruct Hc as [->|Hc]; [reflexivity|]). subst i. reflexivity.
Defined.

(** After a full-frame method only its own values are in the digits below
    the digit count: calling one such method right after another leaves
    the cache that the second alone would leave. *)
Theorem last_frame_wins int_bits c1 c2 f1 f2 s :
  frame_value c1 = Some f1 -> frame_value c2 = Some f2 ->
  0 <= _numDigits s <= 8 -> length (_displayCache s) = 8%nat ->
  exists s1 s12 s2,
    perform int_bits c1 s = Done tt s1 /\
    perform int_bits c2 s1 = Done tt s12 /\
    perform int_bits c2 s = Done tt s2 /\
    _displayCache s12 = _displayCache s2.
Proof.
  intros H1 H2 Hn Hl. eexists _, _, _. split; [|split; [|split]].
  - apply (perform_full_frame int_bits c1 f1); assumption.
  - apply (perform_full_frame int_bits c2 f2);
      [assumption | rewrite paint_numDigits; assumption
       | rewrite paint_length; assumption].
  - apply (perform_full_frame int_bits c2 f2); assumption.
  - rewrite paint_numDigits. apply list_eq. intros j.
    rewrite <- (Nat2Z.id j).
    destruct (Z.lt_ge_cases (Z.of_nat j) (_numDigits s)) as [Hin|Hout].
    + rewrite !paint_cache_inside; try reflexivity; try lia.
      rewrite paint_length. lia.
    + rewrite !paint_cache_outside by lia. reflexivity.
Qed.

Lemma last_frame_wins_witness :
  exists s1 s12 s2,
    perform 16 (call_setMatrix 0x0f 0x55) (driver 8) = Done tt s1 /\
    perform 16 (call_setColumns 0x81) s1 = Done tt s12 /\
    perform 16 (call_setColumns 0x81) (driver 8) = Done tt s2 /\
    _displayCache s12 = _displayCache s2.
Proof.
  refine (last_frame_wins 16 (call_setMatrix 0x0f 0x55) (call_setColumns 0x81)
            (matrix_value 0x0f 0x55) (matrix_value 0x81 255) (driver 8)
            eq_refl eq_refl _ eq_refl).
  vm_compute. split; discriminate.
Defined.

(** ** [dispRefresh] brings the chip back in step *)

Lemma register_value_paint f k : forall i s r,
  0 <= i -> i + Z.of_nat k <= 255 ->
  register_value r (issued (paint f k i s)) =
  if (i + 1 <=? r) && (r <=? i + Z.of_nat k) then Some (f (r - 1))
  else register_value r (issued s).
Proof.
  induction k as [|k IH]; intros i s r Hi Hk; cbn [paint].
  - destruct (Z.leb_spec (i + 1) r), (Z.leb_spec r (i + Z.of_nat 0));
      cbn [andb]; try reflexivity; lia.
  - rewrite IH by lia.
    rewrite stored_issued, register_value_snoc.
    unfold DIGITREGISTER. rewrite (u8_small (i + 1)) by lia.
    destruct (Z.leb_spec (i + 1 + 1) r), (Z.leb_spec r (i + 1 + Z.of_nat k)),
             (Z.leb_spec (i + 1) r), (Z.leb_spec r (i + Z.of_nat (S k))),
             (Z.eqb_spec (i + 1) r);
      cbn [andb]; try reflexivity; try lia.
    replace (r - 1) with i by lia. reflexivity.
Qed.

(** Whatever was sent before, after [dispRefresh] on a driver of at most 8
    digits every digit register up to the digit count holds the cache
    entry of its digit. *)
Theorem dispRefresh_resynchronises s :
  0 <= _numDigits s <= 8 -> length (_displayCache s) = 8%nat ->
  exists s',
    dispRefresh s = Done tt s' /\
    forall i, 0 <= i < _numDigits s ->
      register_value (i + 1) (issued s') = _displayCache s' !! Z.to_nat i /\
      _displayCache s' !! Z.to_nat i = _displayCache s !! Z.to_nat i.
Proof.
  intros Hn Hl. eexists. split; [apply dispRefresh_paint; assumption|].
  intros i Hi. rewrite paint_cached_cache by reflexivity.
  split; [|reflexivity].
  rewrite register_value_paint by lia.
  rewrite (proj2 (Z.leb_le (0 + 1) (i + 1))) by lia.
  rewrite (proj2 (Z.leb_le (i + 1) _)) by lia. cbn [andb].
  replace (i + 1 - 1) with i by lia. unfold cached.
  destruct (cache_slot i s) as [c ->]; [lia | assumption | reflexivity].
Qed.

Lemma dispRefresh_resynchronises_witness :
  register_value 2 (issued out_of_step) = None /\
  exists s',
    dispRefresh out_of_step = Done tt s' /\
    register_value 2 (issued s') = Some 2.
Proof.
  split; [reflexivity|].
  destruct (dispRefresh_resynchronises out_of_step) as (s' & Hs' & Hr);
    [cbn; lia | reflexivity |].
  exists s'. split; [exact Hs'|].
  destruct (Hr 1) as [H1 H2]; [cbn; lia|].
  exact (eq_trans H1 H2).
Defined.

(** ** One pixel at a time *)

(** On a driver of two digits or more, [setPixel] on a digit below 8 and a
    segment below 8 changes one bit only: the new cache entry of the digit
    has bit [segment] equal to the state flag and every other bit as
    before, the other cache entries are untouched, and the one register
    write issued carries the new entry. *)
Theorem setPixel_one_bit int_bits s d segment (state : bool) :
  16 <= int_bits -> 2 <= _numDigits s -> cache_ok s ->
  0 <= d < 8 -> 0 <= segment < 8 ->
  exists s' c',
    setPixel int_bits d segment state s = Done tt s' /\
    _displayCache s' !! Z.to_nat d = Some c' /\
    Z.testbit c' segment = state /\
    (forall m, m <> segment -> Z.testbit c' m = Z.testbit (cached s d) m) /\
    (forall j, 0 <= j -> j <> d ->
       _displayCache s' !! Z.to_nat j = _displayCache s !! Z.to_nat j) /\
    issued s' = issued s ++ [(d + 1, c')].
Proof.
  intros Hw Hn Hok Hd Hg. pose proof Hok as [Hl _].
  pose proof (cached_is_u8 s d Hok) as Hc.
  eexists _, _. split; [|split; [|split; [|split; [|split]]]].
  - apply setPixel_stores; [assumption | assumption | lia | assumption].
  - cbn [_displayCache stored]. apply list_lookup_insert_eq. lia.
  - destruct state.
    + rewrite pixel_on_setbit, testbit_u8, Z.setbit_eqb by lia.
      rewrite (proj2 (Z.ltb_lt segment 8)), Z.eqb_refl by lia. reflexivity.
    + rewrite pixel_off_clearbit, testbit_u8, Z.clearbit_eqb by lia.
      rewrite (proj2 (Z.ltb_lt segment 8)), Z.eqb_refl by lia.
      cbn. apply andb_false_r.
  - intros m Hm. destruct (Z.lt_ge_cases m 0) as [Hneg|Hpos].
    { rewrite !Z.testbit_neg_r by lia. reflexivity. }
    destruct state.
    + rewrite pixel_on_setbit, testbit_u8, Z.setbit_eqb by lia.
      destruct (Z.eqb_spec segment m); [lia|]. cbn [orb].
      destruct (Z.ltb_spec m 8); [reflexivity|].
      rewrite (testbit_byte _ m Hc) by lia. reflexivity.
    + rewrite pixel_off_clearbit, testbit_u8, Z.clearbit_eqb by lia.
      destruct (Z.eqb_spec segment m); [lia|]. cbn [negb].
      rewrite andb_true_r.
      destruct (Z.ltb_spec m 8); [reflexivity|].
      rewrite (testbit_byte _ m Hc) by lia. reflexivity.
  - intros j Hj Hne. cbn [_displayCache stored].
    apply list_lookup_insert_ne. lia.
  - rewrite stored_issued, u8_digit_register by lia. reflexivity.
Qed.

Lemma setPixel_one_bit_witness :
  exists s' c',
    setPixel 16 2 5 true (driver 8) = Done tt s' /\
    _displayCache s' !! 2%nat = Some c' /\
    Z.testbit c' 5 = true /\
    issued s' = issued (driver 8) ++ [(3, c')].
Proof.
  destruct (setPixel_one_bit 16 (driver 8) 2 5 true)
    as (s' & c' & Hs' & Hc' & Hb & _ & _ & Hw).
  - lia.
  - vm_compute. discriminate.
  - split; [reflexivity|].
    replace (_displayCache (driver 8)) with blank by (vm_compute; reflexivity).
    repeat constructor; unfold is_u8; lia.
  - lia.
  - lia.
  - exists s', c'. repeat apply conj; assumption.
Defined.

Lemma pixel_commute int_bits c s1 s2 (b1 b2 : bool) :
  8 <= int_bits -> 0 <= s1 < int_bits -> 0 <= s2 < int_bits -> s1 <> s2 ->
  (if b2 then pixel_on int_bits
                (if b1 then pixel_on int_bits c s1 else pixel_off int_bits c s1) s2
   else pixel_off int_bits
                (if b1 then pixel_on int_bits c s1 else pixel_off int_bits c s1) s2)
  =
  (if b1 then pixel_on int_bits
                (if b2 then pixel_on int_bits c s2 else pixel_off int_bits c s2) s1
   else pixel_off int_bits
                (if b2 then pixel_on int_bits c s2 else pixel_off int_bits c s2) s1).
Proof.
  intros Hw H1 H2 Hne.
  destruct b1, b2;
    rewrite ?pixel_on_setbit, ?pixel_off_clearbit by lia;
    apply Z.bits_inj'; intros m Hm;
    rewrite ?testbit_u8, ?Z.setbit_eqb, ?Z.clearbit_eqb,
            ?testbit_u8, ?Z.setbit_eqb, ?Z.clearbit_eqb by lia;
    destruct (Z.ltb_spec m 8), (Z.eqb_spec s1 m), (Z.eqb_spec s2 m),
             (Z.testbit c m); try reflexivity; lia.
Qed.

(** On a driver of two digits or more, two [setPixel] calls on different
    pixels leave the same cache in either order. *)
Theorem setPixel_order int_bits s d1 g1 (b1 : bool) d2 g2 (b2 : bool) :
  16 <= int_bits -> 2 <= _numDigits s -> length (_displayCache s) = 8%nat ->
  0 <= d1 < 8 -> 0 <= d2 < 8 ->
  0 <= g1 < int_bits -> 0 <= g2 < int_bits ->
  d1 <> d2 \/ g1 <> g2 ->
  exists sa sb,
    (setPixel int_bits d1 g1 b1 ;; setPixel int_bits d2 g2 b2) s = Done tt sa /\
    (setPixel int_bits d2 g2 b2 ;; setPixel int_bits d1 g1 b1) s = Done tt sb /\
    _displayCache sa = _displayCache sb.
Proof.
  intros Hw Hn Hl Hd1 Hd2 Hg1 Hg2 Hne. eexists _, _. split; [|split].
  - erewrite bind_Done by (apply setPixel_stores; assumption).
    apply setPixel_stores;
      [exact Hn | assumption | assumption | rewrite stored_length; exact Hl].
  - erewrite bind_Done by (apply setPixel_stores; assumption).
    apply setPixel_stores;
      [exact Hn | assumption | assumption | rewrite stored_length; exact Hl].
  - cbn [_displayCache stored].
    destruct (Z.eq_dec d1 d2) as [->|Hd].
    + rewrite !cached_stored by lia. rewrite !list_insert_insert_eq.
      f_equal. apply pixel_commute; [lia | lia | lia |].
      destruct Hne as [H|H]; [congruence | exact H].
    + assert (E1 : cached (stored d1 (if b1 then pixel_on int_bits (cached s d1) g1
                                      else pixel_off int_bits (cached s d1) g1) s) d2
                   = cached s d2).
      { unfold cached. cbn [_displayCache stored].
        rewrite list_lookup_insert_ne by lia. reflexivity. }
      assert (E2 : cached (stored d2 (if b2 then pixel_on int_bits (cached s d2) g2
                                      else pixel_off int_bits (cached s d2) g2) s) d1
                   = cached s d1).
      { unfold cached. cbn [_displayCache stored].
        rewrite list_lookup_insert_ne by lia. reflexivity. }
      rewrite E1, E2. apply list_insert_insert_ne. lia.
Qed.

Lemma setPixel_order_witness :
  exists sa sb,
    (setPixel 16 1 0 true ;; setPixel 16 1 7 true) (driver 8) = Done tt sa /\
    (setPixel 16 1 7 true ;; setPixel 16 1 0 true) (driver 8) = Done tt sb /\
    _displayCache sa = _displayCache sb.
Proof.
  apply (setPixel_order 16 (driver 8) 1 0 true 1 7 true);
    try lia; try reflexivity.
  vm_compute. discriminate.
Defined.

(** ** A frame built digit by digit *)

Lemma setDigit_sequence int_bits f k : forall i s,
  2 <= _numDigits s -> length (_displayCache s) = 8%nat ->
  0 <= i -> i + Z.of_nat k <= 8 ->
  perform_all int_bits
    (map (fun j => call_setDigit j (f j)) (seqZ i (Z.of_nat k))) s
  = Done tt (paint f k i s).
Proof.
  induction k as [|k IH]; intros i s Hn Hl Hi Hk.
  - reflexivity.
  - rewrite (seqZ_cons i (Z.of_nat (S k))) by lia.
    replace (Z.pred (Z.of_nat (S k))) with (Z.of_nat k) by lia.
    replace (Z.succ i) with (i + 1) by lia.
    cbn [map perform_all perform paint].
    erewrite bind_Done by (apply setDigit_stores; [assumption | lia | assumption]).
    apply IH; [exact Hn | rewrite stored_length; exact Hl | lia | lia].
Qed.

(** On a driver of two to eight digits, [setMatrix] ends in the same
    object, cache and bus traffic alike, as one [setDigit] call per digit
    in ascending order, each with the segment mask or 0 as the bit of the
    digit in the digit mask says. *)
Theorem setMatrix_digit_by_digit int_bits s digits segments :
  2 <= _numDigits s <= 8 -> length (_displayCache s) = 8%nat ->
  exists s',
    setMatrix digits segments s = Done tt s' /\
    perform_all int_bits
      (map (fun j => call_setDigit j (if Z.testbit digits j then segments else 0))
           (seqZ 0 (_numDigits s))) s
    = Done tt s'.
Proof.
  intros Hn Hl. eexists. split; [apply setMatrix_paint; [lia | assumption]|].
  rewrite <- (Z2Nat.id (_numDigits s)) at 1 by lia.
  apply (setDigit_sequence int_bits (matrix_value digits segments));
    [lia | assumption | lia | lia].
Qed.

Lemma setMatrix_digit_by_digit_witness :
  exists s',
    setMatrix 0x05 0x7e (driver 3) = Done tt s' /\
    perform_all 16
      (map (fun j => call_setDigit j (if Z.testbit 0x05 j then 0x7e else 0))
           (seqZ 0 (_numDigits (driver 3)))) (driver 3)
    = Done tt s'.
Proof.
  apply setMatrix_digit_by_digit; [vm_compute; split; discriminate|].
  reflexivity.
Defined.

(** ** A driver of one digit *)

(** On a driver constructed with one digit, [setDigit] and [setPixel]
    return without touching the object whatever their arguments, even
    for an index past the cache or a shift wider than [int]; the digit can
    still be set through a full-frame method: [setRows] stores its mask in
    cache entry 0 and sends it to digit register 1. *)
Theorem one_digit_driver_methods int_bits s d v segment state :
  _numDigits s = 1 -> length (_displayCache s) = 8%nat -> 0 <= d ->
  setDigit d v s = Done tt s /\
  setPixel int_bits d segment state s = Done tt s /\
  exists s',
    setRows v s = Done tt s' /\
    _displayCache s' !! 0%nat = Some v /\
    issued s' = issued s ++ [(1, v)].
Proof.
  intros Hn Hl Hd. split; [|split].
  - apply setDigit_blocked; lia.
  - apply setPixel_blocked; lia.
  - eexists. split; [apply setRows_paint; [lia | assumption]|].
    rewrite Hn. change (Z.to_nat 1) with 1%nat. cbn [paint].
    split.
    + cbn [_displayCache stored]. change (Z.to_nat 0) with 0%nat.
      apply list_lookup_insert_eq. lia.
    + rewrite stored_issued, u8_digit_register by lia. reflexivity.
Qed.

Lemma one_digit_driver_methods_witness :
  setDigit 200 0xff (driver 1) = Done tt (driver 1) /\
  setPixel 16 0 40 true (driver 1) = Done tt (driver 1) /\
  exists s',
    setRows 0xff (driver 1) = Done tt s' /\
    _displayCache s' !! 0%nat = Some 0xff /\
    issued s' = issued (driver 1) ++ [(1, 0xff)].
Proof.
  destruct (one_digit_driver_methods 16 (driver 1) 200 0xff 0 true)
    as (H1 & _ & _); [reflexivity | reflexivity | lia |].
  destruct (one_digit_driver_methods 16 (driver 1) 0 0 40 true)
    as (_ & H2 & _); [reflexivity | reflexivity | lia |].
  destruct (one_digit_driver_methods 16 (driver 1) 0 0xff 0 true)
    as (_ & _ & H3); [reflexivity | reflexivity | lia |].
  split; [exact H1 | split; [exact H2 | exact H3]].
Defined.

(** ** What any sequence of calls keeps *)

Lemma paint_keeps (P : MAX72 -> Prop) n f k : forall i s,
  (forall j v t, 0 <= j < 8 -> sized n t -> P t -> P (stored j v t)) ->
  0 <= i -> i + Z.of_nat k <= 8 -> sized n s -> P s ->
  P (paint f k i s).
Proof.
  induction k as [|k IH]; intros i s Hst Hi Hk Hs HP; cbn [paint];
    [assumption|].
  apply IH; [assumption | lia | lia | apply sized_stored, Hs |].
  apply Hst; [lia | assumption | assumption].
Qed.

Lemma perform_keeps int_bits (P : MAX72 -> Prop) n c s s' :
  0 <= n <= 8 ->
  (forall j v t, 0 <= j < 8 -> sized n t -> P t -> P (stored j v t)) ->
  (forall v t, v <= 15 -> sized n t -> P t -> P (sent INTENSITY v t)) ->
  sized n s -> P s ->
  perform int_bits c s = Done tt s' -> sized n s' /\ P s'.
Proof.
  intros Hn Hst Hse Hs HP. pose proof Hs as [Hnum Hlen].
  assert (Hn' : 0 <= _numDigits s <= 8) by lia.
  assert (Hpaint : forall f, sized n (paint f (Z.to_nat (_numDigits s)) 0 s) /\
                             P (paint f (Z.to_nat (_numDigits s)) 0 s)).
  { intros f. split; [apply sized_paint, Hs|].
    apply (paint_keeps P n); [assumption | lia | lia | assumption | assumption]. }
  destruct c; cbn [perform].
  - rewrite dispClear_paint by assumption. intros H. injection H as <-. apply Hpaint.
  - rewrite dispAll_paint by assumption. intros H. injection H as <-. apply Hpaint.
  - rewrite dispRefresh_paint by assumption. intros H. injection H as <-. apply Hpaint.
  - unfold setIntensity. destruct (Z.leb_spec intensity 15) as [Hv|Hv].
    + rewrite writeRegister_sent. intros H. injection H as <-.
      split; [exact Hs | apply Hse; assumption].
    + intros H. injection H as <-. split; assumption.
  - intros H. apply setDigit_Done in H; [|assumption].
    destruct H as [->|[Hd ->]]; [split; assumption|].
    split; [apply sized_stored, Hs | apply Hst; assumption].
  - rewrite setMatrix_paint by assumption. intros H. injection H as <-. apply Hpaint.
  - rewrite setColumns_paint by assumption. intros H. injection H as <-. apply Hpaint.
  - rewrite setRows_paint by assumption. intros H. injection H as <-. apply Hpaint.
  - intros H. apply setPixel_Done in H; [|assumption].
    destruct H as [->|[Hd [v ->]]]; [split; assumption|].
    split; [apply sized_stored, Hs | apply Hst; assumption].
Qed.

Lemma perform_all_keeps int_bits (P : MAX72 -> Prop) n calls : forall s s',
  0 <= n <= 8 ->
  (forall j v t, 0 <= j < 8 -> sized n t -> P t -> P (stored j v t)) ->
  (forall v t, v <= 15 -> sized n t -> P t -> P (sent INTENSITY v t)) ->
  sized n s -> P s ->
  perform_all int_bits calls s = Done tt s' -> sized n s' /\ P s'.
Proof.
  induction calls as [|c calls IH]; intros s s' Hn Hst Hse Hs HP;
    cbn [perform_all].
  - intros H. injection H as <-. split; assumption.
  - intros H. unfold bind in H.
    destruct (perform int_bits c s) as [[] s1| |] eqn:Hc; try discriminate H.
    destruct (perform_keeps int_bits P n c s s1) as [Hs1 HP1]; try assumption.
    apply (IH s1); assumption.
Qed.

Lemma frames_snoc cs ws r v :
  frames cs (ws ++ [(r, v)]) = frames cs ws ++ frame cs r v.
Proof.
  unfold frames. rewrite flat_map_app. cbn [flat_map fst snd].
  rewrite app_nil_r. reflexivity.
Qed.

Lemma framed_sent r v s : framed s -> framed (sent r v s).
Proof.
  unfold framed. intros H. rewrite sent_issued, frames_snoc.
  cbn [wire _chipSelect sent]. rewrite H at 1. rewrite <- app_assoc.
  reflexivity.
Qed.

Lemma framed_stored i v s : framed s -> framed (stored i v s).
Proof.
  unfold framed. intros H. rewrite stored_issued, frames_snoc.
  cbn [wire _chipSelect stored]. rewrite H at 1. rewrite <- app_assoc.
  reflexivity.
Qed.

(** Whatever methods are called on a driver constructed with 1 to 8
    digits, the pin and bus traffic of the object is the constructor's
    preamble (pin mode, select line high, bus set-up) followed by whole
    frames only, one per register write: select line low, the address
    word, the value word, select line high.  No word is ever sent outside
    a frame and the select line is left high. *)
Theorem bus_traffic_is_framed int_bits memory chipSelect n calls s :
  length memory = 8%nat -> 1 <= n <= 8 ->
  program int_bits memory chipSelect n calls = Done tt s ->
  wire s = setup chipSelect ++ frames chipSelect (issued s) /\
  _chipSelect s = chipSelect.
Proof.
  intros Hl Hn. unfold program.
  rewrite MAX72_ctor_Done by (assumption || lia).
  intros Hrun.
  apply (perform_all_keeps int_bits
           (fun t => framed t /\ _chipSelect t = chipSelect) n) in Hrun.
  - destruct Hrun as [_ [Hf Hcs]]. unfold framed in Hf. rewrite Hcs in Hf.
    split; assumption.
  - lia.
  - intros j v t _ _ [Hf Hcs]. split; [apply framed_stored, Hf | exact Hcs].
  - intros v t _ _ [Hf Hcs]. split; [apply framed_sent, Hf | exact Hcs].
  - do 4 apply sized_sent. apply sized_paint, sized_sent.
    split; [reflexivity | exact Hl].
  - split.
    + do 4 apply framed_sent.
      apply (paint_keeps framed n);
        [intros j v t _ _; apply framed_stored | lia | lia
         | apply sized_sent; split; [reflexivity | exact Hl] |].
      apply framed_sent. unfold framed. cbn [wire _chipSelect].
      change (issued _) with (issued (mkMAX72 chipSelect n memory (setup chipSelect))).
      rewrite issued_setup. cbn [frames flat_map]. rewrite app_nil_r.
      reflexivity.
    + cbn [_chipSelect sent]. apply paint_keeps_chipSelect.
Qed.

Lemma bus_traffic_is_framed_witness :
  exists s,
    program 16 blank 10 2 [call_setDigit 1 0x42; call_setIntensity 99] = Done tt s /\
    wire s = setup 10 ++ frames 10 (issued s).
Proof.
  assert (H : exists s, program 16 blank 10 2
                          [call_setDigit 1 0x42; call_setIntensity 99] = Done tt s)
    by (eexists; vm_compute; reflexivity).
  destruct H as [s Hs]. exists s. split; [exact Hs|].
  apply (bus_traffic_is_framed 16 blank 10 2
           [call_setDigit 1 0x42; call_setIntensity 99] s);
    [reflexivity | lia | exact Hs].
Defined.

Lemma register_value_stored r j v t :
  0 <= j < 8 -> 8 < r ->
  register_value r (issued (stored j v t)) = register_value r (issued t).
Proof.
  intros Hj Hr. rewrite stored_issued, u8_digit_register, register_value_snoc by lia.
  destruct (Z.eqb_spec (j + 1) r); [lia | reflexivity].
Qed.

Lemma register_value_sent r r' v t :
  register_value r (issued (sent r' v t)) =
  if r' =? r then Some v else register_value r (issued t).
Proof. rewrite sent_issued. apply register_value_snoc. Qed.

Lemma configured_stored n j v t :
  0 <= j < 8 -> configured n t -> configured n (stored j v t).
Proof.
  intros Hj (H1 & H2 & H3 & H4 & H5). unfold configured.
  rewrite !register_value_stored by (assumption || reflexivity).
  repeat apply conj; assumption.
Qed.

Lemma configured_intensity n v t :
  v <= 15 -> configured n t -> configured n (sent INTENSITY v t).
Proof.
  intros Hv (H1 & H2 & H3 & H4 & H5). unfold configured.
  rewrite !register_value_sent. cbn. repeat apply conj; try assumption.
  exists v. split; [reflexivity | exact Hv].
Qed.

(** A run that returns has kept the digit count, the size of the cache and
    the configuration of the chip. *)
Lemma configuration_kept_on_return int_bits memory chipSelect n calls s :
  length memory = 8%nat -> 1 <= n <= 8 ->
  program int_bits memory chipSelect n calls = Done tt s ->
  _numDigits s = n /\
  length (_displayCache s) = 8%nat /\
  register_value SHUTDOWN (issued s) = Some 1 /\
  register_value SCANLIMIT (issued s) = Some (n - 1) /\
  register_value DECODEMODE (issued s) = Some 0 /\
  register_value DISPLAYTEST (issued s) = None /\
  exists v, register_value INTENSITY (issued s) = Some v /\ v <= 15.
Proof.
  intros Hl Hn. unfold program.
  rewrite MAX72_ctor_Done by (assumption || lia).
  intros Hrun.
  apply (perform_all_keeps int_bits (configured n) n) in Hrun.
  - destruct Hrun as [[Hnum Hlen] Hc]. split; [exact Hnum|].
    split; [exact Hlen | exact Hc].
  - lia.
  - intros j v t Hj _. apply configured_stored, Hj.
  - intros v t Hv _. apply configured_intensity, Hv.
  - do 4 apply sized_sent. apply sized_paint, sized_sent.
    split; [reflexivity | exact Hl].
  - assert (Hp : forall r, 8 < r ->
              register_value r
                (issued (paint (fun _ => 0) (Z.to_nat n) 0
                   (sent SHUTDOWN 0 (mkMAX72 chipSelect n memory (setup chipSelect)))))
              = if SHUTDOWN =? r then Some 0 else None).
    { intros r Hr.
      rewrite register_value_paint by lia.
      destruct (Z.leb_spec (0 + 1) r), (Z.leb_spec r (0 + Z.of_nat (Z.to_nat n)));
        cbn [andb]; try lia;
        rewrite register_value_sent, issued_setup; reflexivity. }
    unfold configured. rewrite !register_value_sent.
    change (issued (paint _ _ _ _)) with
      (issued (paint (fun _ => 0) (Z.to_nat n) 0
         (sent SHUTDOWN 0 (mkMAX72 chipSelect n memory (setup chipSelect))))).
    rewrite !Hp by reflexivity. cbn.
    rewrite (u8_small (n - 1)) by lia.
    repeat apply conj; try reflexivity.
    exists 15. split; [reflexivity | lia].
Qed.

(** An index from 8 on is not covered by what follows: on a driver of two
    digits or more it passes the guard, [setDigit] goes on to index
    [_displayCache] past its end, and the register address it computes is
    that of a configuration register; for index 11 it is [SHUTDOWN]. *)
Lemma setDigit_past_cache_addresses_shutdown :
  digit_guard 11 (driver 3) = Done true (driver 3) /\
  u8 (DIGITREGISTER 11) = SHUTDOWN /\
  setDigit 11 0 (driver 3) = Undefined.
Proof. repeat apply conj; vm_compute; reflexivity. Qed.

(** On a driver constructed with 1 to 8 digits, every sequence of public
    calls in which the digit indices handed to [setDigit] and [setPixel]
    are below 8 and the segments handed to [setPixel] are below the width
    of [int] returns, with the digit count and the size of the cache as
    constructed and the configuration of the chip as the constructor left
    it: the shutdown register holds 1 (display on), the scan-limit
    register the digit count minus one, the decode-mode register 0, the
    display-test register was never written, and the intensity register
    holds a value of at most 15. *)
Theorem configuration_is_kept int_bits memory chipSelect n calls :
  length memory = 8%nat -> 1 <= n <= 8 ->
  Forall (call_defined int_bits) calls ->
  exists s,
    program int_bits memory chipSelect n calls = Done tt s /\
    _numDigits s = n /\
    length (_displayCache s) = 8%nat /\
    register_value SHUTDOWN (issued s) = Some 1 /\
    register_value SCANLIMIT (issued s) = Some (n - 1) /\
    register_value DECODEMODE (issued s) = Some 0 /\
    register_value DISPLAYTEST (issued s) = None /\
    exists v, register_value INTENSITY (issued s) = Some v /\ v <= 15.
Proof.
  intros Hl Hn Hall.
  destruct (MAX72_ctor_consistent memory chipSelect n) as (s0 & Heq & Hs0 & Hc0);
    [assumption | lia |].
  destruct (perform_all_mirrored int_bits n calls s0) as [_ Htot];
    [lia | split; assumption |].
  destruct (Htot Hall) as [s Hs].
  assert (Hrun : program int_bits memory chipSelect n calls = Done tt s)
    by (unfold program; rewrite Heq; exact Hs).
  exists s. split; [exact Hrun|].
  apply (configuration_kept_on_return int_bits memory chipSelect n calls s);
    assumption.
Qed.

Lemma configuration_is_kept_witness :
  exists s,
    program 16 stale 10 4
      [call_dispAll; call_setIntensity 200; call_setIntensity 3;
       call_setDigit 7 0xff; call_setPixel 0 9 false]
    = Done tt s /\
    register_value SHUTDOWN (issued s) = Some 1 /\
    register_value SCANLIMIT (issued s) = Some 3.
Proof.
  destruct (configuration_is_kept 16 stale 10 4
      [call_dispAll; call_setIntensity 200; call_setIntensity 3;
       call_setDigit 7 0xff; call_setPixel 0 9 false])
    as (s & Hs & _ & _ & H1 & H2 & _).
  - reflexivity.
  - lia.
  - repeat constructor; cbn; lia.
  - exists s. split; [exact Hs|]. split; [exact H1 | exact H2].
Defined.

Lemma in_step_stored n j v t :
  n <= 8 -> 0 <= j < 8 -> sized n t -> in_step n t -> in_step n (stored j v t).
Proof.
  intros Hn Hj [_ Hl] H i Hi.
  rewrite stored_issued, u8_digit_register, register_value_snoc by lia.
  cbn [_displayCache stored].
  destruct (Z.eqb_spec (j + 1) (i + 1)) as [E|E].
  - replace i with j by lia. symmetry. apply list_lookup_insert_eq. lia.
  - rewrite list_lookup_insert_ne by lia. apply H, Hi.
Qed.

Lemma in_step_sent n r v t :
  n <= 8 -> 8 < r -> in_step n t -> in_step n (sent r v t).
Proof.
  intros Hn Hr H i Hi. rewrite register_value_sent.
  destruct (Z.eqb_spec r (i + 1)); [lia|]. apply H, Hi.
Qed.

(** On a driver constructed with 1 to 8 digits, after any calls,
    [dispRefresh] changes the value of no register of the chip and no
    cache entry: it only sends again what the digit registers hold. *)
Theorem dispRefresh_changes_no_register int_bits memory chipSelect n calls s :
  length memory = 8%nat -> 1 <= n <= 8 ->
  program int_bits memory chipSelect n calls = Done tt s ->
  exists s',
    dispRefresh s = Done tt s' /\
    _displayCache s' = _displayCache s /\
    forall r, register_value r (issued s') = register_value r (issued s).
Proof.
  intros Hl Hn. unfold program.
  rewrite MAX72_ctor_Done by (assumption || lia).
  intros Hrun.
  apply (perform_all_keeps int_bits (in_step n) n) in Hrun.
  - destruct Hrun as [[Hnum Hlen] Hstep].
    eexists. split; [apply dispRefresh_paint; [lia | assumption]|].
    split; [apply paint_cached_cache; reflexivity|].
    intros r. rewrite register_value_paint by lia.
    destruct (Z.leb_spec (0 + 1) r), (Z.leb_spec r (0 + Z.of_nat (Z.to_nat (_numDigits s))));
      cbn [andb]; try reflexivity.
    replace r with (r - 1 + 1) at 2 by lia.
    rewrite (Hstep (r - 1)) by lia. unfold cached.
    destruct (cache_slot (r - 1) s) as [c ->]; [lia | assumption | reflexivity].
  - lia.
  - intros j v t Hj Ht. apply in_step_stored; [lia | assumption | assumption].
  - intros v t _ _. apply in_step_sent; [lia | reflexivity].
  - do 4 apply sized_sent. apply sized_paint, sized_sent.
    split; [reflexivity | exact Hl].
  - do 4 (apply in_step_sent; [lia | reflexivity |]).
    intros i Hi. rewrite register_value_paint by lia.
    rewrite (proj2 (Z.leb_le (0 + 1) (i + 1))) by lia.
    rewrite (proj2 (Z.leb_le (i + 1) _)) by lia. cbn [andb].
    symmetry. apply (paint_cache_inside (fun _ => 0)); cbn; lia.
Qed.

Lemma dispRefresh_changes_no_register_witness :
  exists s s',
    program 16 stale 10 2 [call_setRows 0x3c; call_setPixel 1 0 true] = Done tt s /\
    dispRefresh s = Done tt s' /\
    register_value 2 (issued s') = register_value 2 (issued s).
Proof.
  assert (H : exists s, program 16 stale 10 2
                [call_setRows 0x3c; call_setPixel 1 0 true] = Done tt s)
    by (eexists; vm_compute; reflexivity).
  destruct H as [s Hs].
  destruct (dispRefresh_changes_no_register 16 stale 10 2
              [call_setRows 0x3c; call_setPixel 1 0 true] s)
    as (s' & Hr & _ & Hv); [reflexivity | lia | exact Hs |].
  exists s, s'. split; [exact Hs|]. split; [exact Hr | apply Hv].
Defined.
